(** * streamlit_app.py: the scrape-and-clean pipeline and its page handler

    A shallow embedding of [src/streamlit_app.py].  Python strings are
    sequences of Unicode code points, so a [str] is a list of code points;
    the string methods the program calls ([strip], [splitlines],
    [split], [join], slicing, [len]) are written out on that
    representation.  The parsed page is a tree of tags and strings, as
    BeautifulSoup exposes it; a tag has an identity, since the program
    takes tags out of the tree through references found beforehand.  The
    browser, the parser and the UI toolkit are collaborators of the
    program: their outcomes are taken as inputs and their invocations are
    recorded in a trace. *)

From Stdlib Require Import String Ascii DecimalString.
From Stdlib Require Import List NArith Bool Arith Lia.
Import ListNotations.

Set Implicit Arguments.

(** ** Python strings *)

Module PyStr.

Local Open Scope N_scope.

Definition char := N.
Definition str := list char.

(** An ASCII literal of the source as a [str]. *)
Definition lit (s : string) : str := map N_of_ascii (list_ascii_of_string s).
Arguments lit s%_string.

Fixpoint eqb (a b : str) : bool :=
  match a, b with
  | [], [] => true
  | x :: a', y :: b' => N.eqb x y && eqb a' b'
  | _, _ => false
  end.

(** [str.isspace] on one code point: the white-space table of CPython. *)
Definition isspace (c : char) : bool :=
  ((9 <=? c) && (c <=? 13)) || ((28 <=? c) && (c <=? 32))
  || (c =? 133) || (c =? 160) || (c =? 5760)
  || ((8192 <=? c) && (c <=? 8202))
  || (c =? 8232) || (c =? 8233) || (c =? 8239) || (c =? 8287)
  || (c =? 12288).

(** The line boundaries of [str.splitlines]. *)
Definition is_linebreak (c : char) : bool :=
  ((10 <=? c) && (c <=? 13)) || ((28 <=? c) && (c <=? 30))
  || (c =? 133) || (c =? 8232) || (c =? 8233).

Definition SP : char := 32.
Definition LF : char := 10.
Definition CR : char := 13.

(** [s.lstrip()], [s.rstrip()], [s.strip()] *)
Fixpoint lstrip (s : str) : str :=
  match s with
  | [] => []
  | c :: s' => if isspace c then lstrip s' else s
  end.

Fixpoint rstrip (s : str) : str :=
  match s with
  | [] => []
  | c :: s' =>
      match rstrip s' with
      | [] => if isspace c then [] else [c]
      | r => c :: r
      end
  end.

Definition strip (s : str) : str := rstrip (lstrip s).

(** [s.splitlines()]: the lines of [s] without their terminators; a
    carriage return followed by a line feed is one terminator, and a
    final terminator opens no further line. *)
Fixpoint splitlines (s : str) : list str :=
  match s with
  | [] => []
  | c :: s' =>
      if is_linebreak c then
        match s' with
        | c' :: s'' =>
            if (c =? CR) && (c' =? LF) then [] :: splitlines s''
            else [] :: splitlines s'
        | [] => [[]]
        end
      else
        match splitlines s' with
        | [] => [[c]]
        | l :: ls => (c :: l) :: ls
        end
  end.

(** [s.split(sep)] for a non-empty separator: the pieces between the
    occurrences of [sep], found from the left and not overlapping.
    [skip] counts the characters of a separator still to be passed.
    (Python raises ValueError on an empty separator; the program's only
    separator is a literal of two spaces.) *)
Fixpoint starts_with (p s : str) : bool :=
  match p, s with
  | [], _ => true
  | x :: p', y :: s' => (x =? y) && starts_with p' s'
  | _ :: _, [] => false
  end.

Definition cons_head (c : char) (l : list str) : list str :=
  match l with
  | [] => [[c]]
  | p :: ps => (c :: p) :: ps
  end.

Fixpoint split_from (sep : str) (skip : nat) (s : str) : list str :=
  match s with
  | [] => [[]]
  | c :: s' =>
      match skip with
      | S k => split_from sep k s'
      | O =>
          if starts_with sep s
          then [] :: split_from sep (pred (length sep)) s'
          else cons_head c (split_from sep 0 s')
      end
  end.

Definition split (sep s : str) : list str := split_from sep 0 s.

(** [sep.join(parts)] *)
Fixpoint join (sep : str) (parts : list str) : str :=
  match parts with
  | [] => []
  | [p] => p
  | p :: rest => p ++ sep ++ join sep rest
  end.

(** [s[:n]] for [n >= 0], and [len(s)] as a number. *)
Definition slice_to (n : N) (s : str) : str := firstn (N.to_nat n) s.
Definition len (s : str) : N := N.of_nat (length s).

End PyStr.

Import PyStr.
Local Open Scope N_scope.

(** ** The parsed page (BeautifulSoup) *)

Module Bs4.

(** The classes of string a parsed page holds. *)
Inductive string_class :=
| NavigableString | CData | Comment | Declaration | Doctype
| ProcessingInstruction | Script | Stylesheet | TemplateString.

(** A page element is a string or a tag with its contents.  A tag is an
    object the program keeps references to while it changes the tree, so
    it carries its identity (what [id(tag)] tells apart in Python);
    attributes play no part in what the program reads. *)
#[local] Unset Elimination Schemes.
Inductive PageElement :=
| Str (cls : string_class) (s : str)
| Tag (id : nat) (name : str) (contents : list PageElement).
#[local] Set Elimination Schemes.

(** The [BeautifulSoup] object is itself a tag, named [[document]]. *)
Definition document (contents : list PageElement) : PageElement :=
  Tag 0 (lit "[document]") contents.

(** [tag.descendants]: every element below [tag], in document order. *)
Fixpoint descendants (e : PageElement) : list PageElement :=
  match e with
  | Str _ _ => []
  | Tag _ _ cs => flat_map (fun c => c :: descendants c) cs
  end.

Definition is_tag_named (names : list str) (e : PageElement) : bool :=
  match e with
  | Tag _ n _ => existsb (PyStr.eqb n) names
  | Str _ _ => false
  end.

(** [tag.find_all(names)], also written [tag(names)], and [tag.find(name)],
    which is [find_all] limited to one result. *)
Definition find_all (names : list str) (e : PageElement) : list PageElement :=
  filter (is_tag_named names) (descendants e).

Definition find (name : str) (e : PageElement) : option PageElement :=
  hd_error (find_all [name] e).

(** The string classes [get_text] collects by default. *)
Definition interesting (cls : string_class) : bool :=
  match cls with
  | NavigableString | CData => true
  | _ => false
  end.

Definition own_string (e : PageElement) : list str :=
  match e with
  | Str cls s => if interesting cls then [s] else []
  | Tag _ _ _ => []
  end.

(** [tag.get_text()]: the interesting strings below [tag], concatenated
    in document order. *)
Definition get_text (e : PageElement) : str :=
  concat (flat_map own_string (descendants e)).

(** [a is b], for tags. *)
Definition same_object (a b : PageElement) : bool :=
  match a, b with
  | Tag i _ _, Tag j _ _ => Nat.eqb i j
  | _, _ => false
  end.

(** [target.decompose()], as the tree [e] that holds [target] sees it:
    the target is taken out of the contents it stands in, with all that
    is below it.  Decomposing what is no longer in the tree changes
    nothing. *)
Fixpoint decompose (target e : PageElement) : PageElement :=
  match e with
  | Str _ _ => e
  | Tag i n cs =>
      Tag i n (flat_map
                 (fun c => if same_object target c then []
                           else [decompose target c]) cs)
  end.

End Bs4.

Import Bs4.

(** ** Exceptions, the trace of outside calls, and the collaborators *)

(** An exception is represented by its message, [str(e)]. *)
Definition Exception := str.

Inductive result (A : Type) :=
| Ok (a : A)
| Raise (e : Exception).
Arguments Ok {A} a.
Arguments Raise {A} e.

(** What a run does to the outside: elements it writes to the page and
    calls it makes to the browser. *)
Inductive event :=
| st_info (body : str)
| st_error (body : str)
| st_warning (body : str)
| st_success (body : str)
| st_tabs (labels : list str)
| st_subheader (body : str)
| st_text_area (label value : str)
| st_code (body : str)
| st_write (body : str)
| call_Chrome (arguments : list str)
| call_get (url : str)
| call_sleep (seconds : N)
| call_page_source
| call_quit.

Section Collaborators.

(** A live browser session. *)
Variable WebDriver : Type.

(** The outside as one run of the script meets it: whether starting
    Chrome succeeds, what navigating a session to a URL does, the markup
    the session holds after that navigation and the wait, and what the
    parser makes of a markup. *)
Record Env := {
  Chrome : list str -> result WebDriver;
  driver_get : WebDriver -> str -> result unit;
  driver_page_source : WebDriver -> str -> result str;
  BeautifulSoup : str -> result (list PageElement)
}.

(** Computations that write a trace and may raise. *)
Definition T (A : Type) : Type := (list event * result A)%type.

Definition ret {A} (a : A) : T A := ([], Ok a).
Definition emit (e : event) : T unit := ([e], Ok tt).
Definition call {A} (e : event) (r : result A) : T A := ([e], r).
Definition lift {A} (r : result A) : T A := ([], r).
Definition bind {A B} (m : T A) (k : A -> T B) : T B :=
  match m with
  | (t, Ok a) => let (t', r) := k a in (t ++ t', r)
  | (t, Raise e) => (t, Raise e)
  end.

Notation "x <- m ;; k" := (bind m (fun x => k))
  (at level 61, m at next level, right associativity).
Notation "m ;;; k" := (bind m (fun _ => k))
  (at level 61, right associativity).

(** ** scrape_website *)

Record ScrapeResult := {
  title : str;
  raw_html : str;
  clean_text : str;
  status : str
}.

(** [title.get_text().strip() if title else "No title found"]: a tag is
    true whatever it holds, so the test is on [find] having found one. *)
Definition title_text_of (soup : PageElement) : str :=
  match find (lit "title") soup with
  | Some title => strip (get_text title)
  | None => lit "No title found"
  end.

(** The loop [for script in soup(["script", "style"]): script.decompose()],
    whose list of tags is complete before the first one is decomposed,
    and then [soup.get_text()] on the tree so changed. *)
Definition text_content_of (soup : PageElement) : str :=
  let soup :=
    fold_left (fun soup script => decompose script soup)
      (find_all [lit "script"; lit "style"] soup) soup in
  get_text soup.

Definition nonempty (s : str) : bool :=
  match s with [] => false | _ :: _ => true end.

(** The three lines under "Clean up text": [lines], [chunks] and the join
    of the chunks that are not empty. *)
Definition clean_up (text_content : str) : str :=
  let lines := map strip (splitlines text_content) in
  let chunks := flat_map (fun line => map strip (split (lit "  ") line)) lines in
  join [LF] (filter nonempty chunks).

(** The [try] block.  What can raise in it is what goes outside:
    [driver.get], [driver.page_source] and the parser; an exception is an
    instance of [Exception], which is what the handler below takes. *)
Definition scrape_body (env : Env) (url : str) (driver : WebDriver)
  : T ScrapeResult :=
  emit (st_info (lit "Loading " ++ url ++ lit "...")) ;;;
  call (call_get url) (driver_get env driver url) ;;;
  emit (call_sleep 2) ;;;
  page_source <- call call_page_source (driver_page_source env driver url) ;;
  contents <- lift (BeautifulSoup env page_source) ;;
  let soup := document contents in
  let title_text := title_text_of soup in
  let text_content := text_content_of soup in
  ret {| title := title_text;
         raw_html := page_source;
         clean_text := clean_up text_content;
         status := lit "success" |}.

(** The whole function: the [try] block under [except Exception as e]. *)
Definition scrape_website (env : Env) (url : str) (driver : WebDriver)
  : list event * ScrapeResult :=
  match scrape_body env url driver with
  | (t, Ok r) => (t, r)
  | (t, Raise e) =>
      (t, {| title := []; raw_html := []; clean_text := [];
             status := lit "error: " ++ e |})
  end.

(** ** get_driver, kept by st.cache_resource *)

Definition chrome_arguments : list str :=
  [lit "--disable-gpu"; lit "--headless"; lit "--no-sandbox";
   lit "--disable-dev-shm-usage"; lit "--disable-extensions";
   lit "--disable-web-security"].

(** The body of [get_driver]: what it writes and calls, and what it
    returns ([None] for Python's None). *)
Definition get_driver_body (env : Env) : list event * option WebDriver :=
  match Chrome env chrome_arguments with
  | Ok driver => ([call_Chrome chrome_arguments], Some driver)
  | Raise e =>
      ([call_Chrome chrome_arguments;
        st_error (lit "Failed to initialize Chrome driver: " ++ e)],
       None)
  end.

Definition is_element (e : event) : bool :=
  match e with
  | call_Chrome _ | call_get _ | call_sleep _ | call_page_source | call_quit => false
  | _ => true
  end.

(** What lives as long as the process: the store of [st.cache_resource]
    for [get_driver], which takes no argument and so has one entry.  An
    entry holds the value the body returned and the elements it wrote. *)
Record Process := {
  get_driver_cache : option (option WebDriver * list event)
}.

Definition fresh : Process := {| get_driver_cache := None |}.

(** A call of the decorated [get_driver]: on a hit the stored value is
    returned and the stored elements are written again, the body does
    not run; on a miss the body runs and whatever it returned is stored. *)
Definition get_driver (env : Env) (p : Process)
  : list event * option WebDriver * Process :=
  match get_driver_cache p with
  | Some (value, elements) => (elements, value, p)
  | None =>
      let (t, value) := get_driver_body env in
      (t, value, {| get_driver_cache := Some (value, filter is_element t) |})
  end.

(** ** The page: result tabs and the button handler *)

Definition decimal (n : N) : str := lit (NilEmpty.string_of_uint (N.to_uint n)).

Definition tab1 (result : ScrapeResult) : list event :=
  st_subheader (lit "Extracted Text Content") ::
  (if nonempty (clean_text result)
   then [st_text_area (lit "Clean Text Content:")
           (slice_to 5000 (clean_text result)
            ++ (if 5000 <? len (clean_text result) then lit "..." else []))]
   else [st_warning (lit "No text content found on the page.")]).

Definition tab2 (result : ScrapeResult) : list event :=
  [st_subheader (lit "Raw HTML Source");
   st_code (slice_to 3000 (raw_html result)
            ++ (if 3000 <? len (raw_html result) then lit "..." else []))].

Definition tab3 (result : ScrapeResult) (url_input : str) : list event :=
  [st_subheader (lit "Page Information");
   st_write (lit "**Title:** " ++ title result);
   st_write (lit "**URL:** " ++ url_input);
   st_write (lit "**Content Length:** " ++ decimal (len (clean_text result))
             ++ lit " characters");
   st_write (lit "**HTML Length:** " ++ decimal (len (raw_html result))
             ++ lit " characters")].

(** The body of [if st.button("Scrape Website", ...)].  A string is true
    when it is not empty, a session object always.  Neither
    [scrape_website] nor the element calls raise, so the handler's own
    [except] branch has nothing to catch; the [finally] clause quits the
    session and swallows what that raises. *)
Definition on_click (env : Env) (url_input : str) (p : Process)
  : list event * Process :=
  if nonempty url_input then
    let '(t1, driver, p') := get_driver env p in
    match driver with
    | Some driver =>
        let (t2, result) := scrape_website env url_input driver in
        let t3 :=
          if PyStr.eqb (status result) (lit "success") then
            st_success (lit "Scraping completed successfully!")
            :: st_tabs [lit "Page Content"; lit "Raw HTML"; lit "Page Title"]
            :: tab1 result ++ tab2 result ++ tab3 result url_input
          else [st_error (lit "Scraping failed: " ++ status result)] in
        (t1 ++ t2 ++ t3 ++ [call_quit], p')
    | None =>
        (t1 ++ [st_error (lit "Failed to initialize web driver. Please try again.")],
         p')
    end
  else ([st_warning (lit "Please enter a valid URL.")], p).

(** The process over a series of clicks, each with the outside as it is
    then and the URL in the input box. *)
Fixpoint clicks (runs : list (Env * str)) (p : Process)
  : list (list event) * Process :=
  match runs with
  | [] => ([], p)
  | (env, url_input) :: rest =>
      let (t, p') := on_click env url_input p in
      let (ts, p'') := clicks rest p' in
      (t :: ts, p'')
  end.

End Collaborators.

Arguments fresh {WebDriver}.

(** ** The cleaning step as the specification words it

    Split the text into lines, split each line on two consecutive
    spaces, trim each fragment, drop the empty ones, join with newlines. *)
Definition clean_text_as_specified (text : str) : str :=
  let lines := splitlines text in
  let fragments := flat_map (split (lit "  ")) lines in
  join [LF] (filter nonempty (map strip fragments)).

(** ** Vocabulary of the statements *)

Definition ws (s : str) : Prop := Forall (fun c => isspace c = true) s.

(** The fragments that survive trimming and the drop of empty ones. *)
Definition kept (pieces : list str) : list str :=
  filter nonempty (map strip pieces).

(** Two lists of pieces that agree up to white space at the end: the same
    pieces, then one piece equal up to its trailing white space, then
    white space only. *)
Inductive tail_eq : list str -> list str -> Prop :=
| tail_eq_last p q tx ty :
    rstrip p = rstrip q -> Forall ws tx -> Forall ws ty ->
    tail_eq (p :: tx) (q :: ty)
| tail_eq_cons p X Y : tail_eq X Y -> tail_eq (p :: X) (p :: Y).

(** Lines and line breaks. *)
Definition no_linebreak (s : str) : Prop :=
  Forall (fun c => is_linebreak c = false) s.

Definition has_text (s : str) : bool := existsb (fun c => negb (isspace c)) s.

(** The identities of the tags below an element, in document order. *)
Definition object_id (e : PageElement) : list nat :=
  match e with
  | Tag i _ _ => [i]
  | Str _ _ => []
  end.

Definition tag_ids (e : PageElement) : list nat :=
  flat_map object_id (descendants e).

(** A tree without the tags of the given identities. *)
Definition removed (ids : list nat) (e : PageElement) : bool :=
  match e with
  | Tag i _ _ => existsb (Nat.eqb i) ids
  | Str _ _ => false
  end.

Fixpoint remove (ids : list nat) (e : PageElement) : PageElement :=
  match e with
  | Str _ _ => e
  | Tag i n cs =>
      Tag i n (flat_map
                 (fun c => if removed ids c then [] else [remove ids c]) cs)
  end.

(** A tree without the tags of the given names, and what is below them. *)
Fixpoint decompose_all (names : list str) (e : PageElement) : PageElement :=
  match e with
  | Str _ _ => e
  | Tag i n cs =>
      Tag i n (flat_map
                 (fun c => if is_tag_named names c then []
                           else [decompose_all names c]) cs)
  end.

(** The strings of a page with the names of the tags around each one,
    innermost first. *)
Fixpoint strings_under (ancestors : list str) (e : PageElement)
  : list (list str * string_class * str) :=
  match e with
  | Str cls s => [(ancestors, cls, s)]
  | Tag _ n cs => flat_map (strings_under (n :: ancestors)) cs
  end.

Definition hidden (name : str) : bool :=
  existsb (PyStr.eqb name) [lit "script"; lit "style"].

(** A string is visible when [get_text] collects its class and no tag
    around it is a script or a style element. *)
Definition visible (x : list str * string_class * str) : bool :=
  let '(ancestors, cls, _) := x in
  interesting cls && forallb (fun n => negb (hidden n)) ancestors.

Definition text_of (x : list str * string_class * str) : str := snd x.

Definition strings_of (e : PageElement) : list str :=
  own_string e ++ flat_map own_string (descendants e).

Definition surviving (c : PageElement) : list PageElement :=
  if is_tag_named [lit "script"; lit "style"] c then []
  else [decompose_all [lit "script"; lit "style"] c].

(** The contents of script and style tags replaced by anything. *)
Fixpoint replace_hidden (f : str -> list PageElement -> list PageElement)
  (e : PageElement) : PageElement :=
  match e with
  | Str _ _ => e
  | Tag i n cs =>
      if hidden n then Tag i n (f n cs)
      else Tag i n (map (replace_hidden f) cs)
  end.

(** [sub in s] *)
Fixpoint contains (sub s : str) : bool :=
  starts_with sub s
  || match s with
     | [] => false
     | _ :: s' => contains sub s'
     end.

(** A panel text as the specification words it: the whole string within
    the limit, else its first [limit] characters and an ellipsis. *)
Definition display_as_specified (limit : N) (s : str) : str :=
  if len s <=? limit then s else slice_to limit s ++ lit "...".

(** The characters of a string that are not white space, in order. *)
Definition non_space (s : str) : str := filter (fun c => negb (isspace c)) s.

(** Whether two spaces stand side by side somewhere in a string. *)
Fixpoint double_space (s : str) : bool :=
  match s with
  | a :: (b :: _) as s' => ((a =? SP) && (b =? SP)) || double_space s'
  | _ => false
  end.

(** The length of the parts of a text with one more character for each,
    which is what a terminator or a separator after each would take. *)
Definition weight (parts : list str) : nat :=
  list_sum (map (fun p => S (length p)) parts).

(** The tree after the loop of [text_content_of], for any list of names. *)
Definition after_decompose (names : list str) (soup : PageElement)
  : PageElement :=
  fold_left (fun soup script => decompose script soup)
    (find_all names soup) soup.

(** Events of one kind in a trace. *)
Definition is_call_Chrome (e : event) : bool :=
  match e with call_Chrome _ => true | _ => false end.

Definition is_call_get (e : event) : bool :=
  match e with call_get _ => true | _ => false end.

Definition is_call_quit (e : event) : bool :=
  match e with call_quit => true | _ => false end.

Definition is_result_element (e : event) : bool :=
  match e with
  | st_success _ | st_tabs _ | st_text_area _ _ | st_code _ => true
  | _ => false
  end.

Definition count (f : event -> bool) (t : list event) : nat :=
  length (filter f t).

Section Outcomes.

Variable WebDriver : Type.
Implicit Types (env : Env WebDriver) (driver : WebDriver).

Definition error_result (e : Exception) : ScrapeResult :=
  {| title := []; raw_html := []; clean_text := [];
     status := lit "error: " ++ e |}.

Definition success_result (src : str) (contents : list PageElement)
  : ScrapeResult :=
  {| title := title_text_of (document contents);
     raw_html := src;
     clean_text := clean_up (text_content_of (document contents));
     status := lit "success" |}.

(** The stages of a run: navigation, reading the markup back, parsing. *)
Inductive outcome env (url : str) driver : ScrapeResult -> Prop :=
| navigation_failed e :
    driver_get env driver url = Raise e ->
    outcome env url driver (error_result e)
| page_source_failed e :
    driver_get env driver url = Ok tt ->
    driver_page_source env driver url = Raise e ->
    outcome env url driver (error_result e)
| parsing_failed src e :
    driver_get env driver url = Ok tt ->
    driver_page_source env driver url = Ok src ->
    BeautifulSoup env src = Raise e ->
    outcome env url driver (error_result e)
| scraped src contents :
    driver_get env driver url = Ok tt ->
    driver_page_source env driver url = Ok src ->
    BeautifulSoup env src = Ok contents ->
    outcome env url driver (success_result src contents).

(** What the handler writes once [scrape_website] has returned. *)
Definition report (result : ScrapeResult) (url_input : str) : list event :=
  if PyStr.eqb (status result) (lit "success") then
    st_success (lit "Scraping completed successfully!")
    :: st_tabs [lit "Page Content"; lit "Raw HTML"; lit "Page Title"]
    :: tab1 result ++ tab2 result ++ tab3 result url_input
  else [st_error (lit "Scraping failed: " ++ status result)].

(** A cache entry as [get_driver] makes it holds page elements only,
    no call to the browser. *)
Definition cache_ok (p : Process WebDriver) : Prop :=
  match get_driver_cache p with
  | Some (_, elements) => forallb is_element elements = true
  | None => True
  end.

(** Successive calls of [get_driver] in one process, each with the
    outside as it is at that moment. *)
Fixpoint get_driver_calls (envs : list (Env WebDriver)) (p : Process WebDriver)
  : list (list event * option WebDriver) * Process WebDriver :=
  match envs with
  | [] => ([], p)
  | env :: rest =>
      let '(t, value, p') := get_driver env p in
      let (results, p'') := get_driver_calls rest p' in
      ((t, value) :: results, p'')
  end.

End Outcomes.

(** ** A worked page *)

Module Demo.

(** The parse of
    [<html><head><title> Demo </title></head><body><script>x=1</script><p>Hello  World</p></body></html>] *)
Definition markup : str :=
  lit "<html><head><title> Demo </title></head><body><script>x=1</script><p>Hello  World</p></body></html>".

Definition contents : list PageElement :=
  [Tag 1 (lit "html")
     [Tag 2 (lit "head")
        [Tag 3 (lit "title") [Str NavigableString (lit " Demo ")]];
      Tag 4 (lit "body")
        [Tag 5 (lit "script") [Str Script (lit "x=1")];
         Tag 6 (lit "p") [Str NavigableString (lit "Hello  World")]]]].

Definition url : str := lit "http://example.com".

Definition parse (src : str) : result (list PageElement) :=
  if PyStr.eqb src markup then Ok contents else Ok [].

(** A session is a number here.  Chrome starts and the page is [markup]. *)
Definition env : Env nat := {|
  Chrome := fun _ => Ok 1%nat;
  driver_get := fun _ _ => Ok tt;
  driver_page_source := fun _ _ => Ok markup;
  BeautifulSoup := parse
|}.

(** The same page with other code in its script element. *)
Definition markup' : str :=
  lit "<html><head><title> Demo </title></head><body><script>y=2;z=3</script><p>Hello  World</p></body></html>".

Definition other_script (name : str) (cs : list PageElement)
  : list PageElement := [Str Script (lit "y=2;z=3")].

Definition env' : Env nat := {|
  Chrome := fun _ => Ok 1%nat;
  driver_get := fun _ _ => Ok tt;
  driver_page_source := fun _ _ => Ok markup';
  BeautifulSoup := fun _ => Ok (map (replace_hidden other_script) contents)
|}.

(** The host name does not resolve: navigation raises. *)
Definition env_unreachable : Env nat := {|
  Chrome := fun _ => Ok 1%nat;
  driver_get := fun _ _ => Raise (lit "net::ERR_NAME_NOT_RESOLVED");
  driver_page_source := fun _ _ => Ok markup;
  BeautifulSoup := parse
|}.

(** No driver binary can be installed: starting Chrome raises. *)
Definition env_no_chrome : Env nat := {|
  Chrome := fun _ => Raise (lit "chromedriver not found");
  driver_get := fun _ _ => Ok tt;
  driver_page_source := fun _ _ => Ok markup;
  BeautifulSoup := parse
|}.

(** A page without any text:
    [<html><head></head><body></body></html>] *)
Definition blank_markup : str := lit "<html><head></head><body></body></html>".

Definition blank_contents : list PageElement :=
  [Tag 1 (lit "html") [Tag 2 (lit "head") []; Tag 3 (lit "body") []]].

Definition env_blank : Env nat := {|
  Chrome := fun _ => Ok 1%nat;
  driver_get := fun _ _ => Ok tt;
  driver_page_source := fun _ _ => Ok blank_markup;
  BeautifulSoup := fun _ => Ok blank_contents
|}.

End Demo.

(** * Properties *)

Unset Implicit Arguments.

(** ** Strings *)

Section StringFacts.

(** The string methods on small inputs, as Python answers them. *)
Example splitlines_ex :
  splitlines (lit "a" ++ [LF] ++ lit "b" ++ [CR; LF; CR] ++ lit "c" ++ [LF])
  = [lit "a"; lit "b"; []; lit "c"].
Proof. reflexivity. Qed.

Example splitlines_empty : splitlines [] = [] /\ splitlines [LF] = [[]].
Proof. split; reflexivity. Qed.

Example split_ex :
  split (lit "  ") (lit "a   b  ") = [lit "a"; lit " b"; []]
  /\ split (lit "  ") [] = [[]]
  /\ split (lit "  ") (lit "    a ") = [[]; []; lit "a "].
Proof. repeat split; reflexivity. Qed.

Example strip_ex : strip ([9; SP] ++ lit "a b" ++ [SP; 160; LF]) = lit "a b".
Proof. reflexivity. Qed.

Example join_ex : join [LF] [lit "a"; lit "b"] = lit "a" ++ [LF] ++ lit "b".
Proof. reflexivity. Qed.

Lemma list_ind2 (A : Type) (P : list A -> Prop) :
  P [] -> (forall a, P [a]) ->
  (forall a b l, P l -> P (b :: l) -> P (a :: b :: l)) ->
  forall l, P l.
Proof.
  intros H0 H1 H2 l.
  assert (H : P l /\ forall a, P (a :: l)).
  { induction l as [|b l [IHl IHl']]; split; auto. }
  apply H.
Qed.

Lemma lstrip_ws s : ws s -> lstrip s = [].
Proof.
  induction 1 as [|c s Hc _ IH]; simpl; [reflexivity|].
  now rewrite Hc.
Qed.

Lemma rstrip_ws s : ws s -> rstrip s = [].
Proof.
  induction 1 as [|c s Hc _ IH]; simpl; [reflexivity|].
  now rewrite IH, Hc.
Qed.

Lemma rstrip_nil_ws s : rstrip s = [] -> ws s.
Proof.
  induction s as [|c s IH]; simpl.
  - intros _; constructor.
  - destruct (rstrip s) eqn:E; [|discriminate].
    destruct (isspace c) eqn:Hc; [|discriminate].
    intros _; constructor; [exact Hc|apply IH; reflexivity].
Qed.

Lemma rstrip_cons a p q : rstrip p = rstrip q -> rstrip (a :: p) = rstrip (a :: q).
Proof. simpl; intros ->; reflexivity. Qed.

Lemma lstrip_rstrip s : lstrip (rstrip s) = rstrip (lstrip s).
Proof.
  induction s as [|c s IH]; [reflexivity|].
  simpl. destruct (isspace c) eqn:Hc.
  - destruct (rstrip s) eqn:E.
    + exact IH.
    + rewrite <- IH. simpl. now rewrite Hc.
  - simpl. destruct (rstrip s) eqn:E; simpl; now rewrite Hc.
Qed.

Lemma strip_cons_ws c s : isspace c = true -> strip (c :: s) = strip s.
Proof. unfold strip; simpl; intros ->; reflexivity. Qed.

Lemma strip_ws s : ws s -> strip s = [].
Proof. intros H; unfold strip; now rewrite (lstrip_ws _ H). Qed.

Lemma rstrip_tail s : exists w, ws w /\ s = rstrip s ++ w.
Proof.
  induction s as [|c s (w & Hw & E)]; [exists []; split; [constructor|reflexivity]|].
  simpl. destruct (rstrip s) as [|r rs] eqn:Er.
  - destruct (isspace c) eqn:Hc.
    + exists (c :: s); split; [|reflexivity].
      constructor; [exact Hc|]. now apply rstrip_nil_ws.
    + exists w; split; [exact Hw|]. simpl in *. now rewrite <- E.
  - exists w; split; [exact Hw|]. simpl in *. now rewrite <- E.
Qed.

Lemma lstrip_rstrip_tail s : exists w, ws w /\ lstrip s = strip s ++ w.
Proof. unfold strip. apply rstrip_tail. Qed.

(** [split] on the program's separator, one or two characters at a time. *)
Lemma two_spaces : lit "  " = [SP; SP].
Proof. reflexivity. Qed.

Lemma split2_nil : split (lit "  ") [] = [[]].
Proof. reflexivity. Qed.

Lemma split_from_0 sep c s :
  split_from sep 0 (c :: s) =
  if starts_with sep (c :: s)
  then [] :: split_from sep (pred (length sep)) s
  else cons_head c (split_from sep 0 s).
Proof. reflexivity. Qed.

Lemma split2_one a : split (lit "  ") [a] = [[a]].
Proof.
  rewrite two_spaces. unfold split. rewrite split_from_0.
  cbn [starts_with]. now rewrite andb_false_r.
Qed.

Lemma split2_cons2 a b s :
  split (lit "  ") (a :: b :: s) =
  if (a =? SP) && (b =? SP) then [] :: split (lit "  ") s
  else cons_head a (split (lit "  ") (b :: s)).
Proof.
  rewrite two_spaces. unfold split. rewrite split_from_0.
  cbn [starts_with length pred split_from].
  rewrite andb_true_r, (N.eqb_sym SP a), (N.eqb_sym SP b).
  reflexivity.
Qed.

Lemma cons_head_not_nil c l : cons_head c l <> [].
Proof. destruct l; discriminate. Qed.

Lemma split_from_not_nil sep k s : split_from sep k s <> [].
Proof.
  revert k; induction s as [|c s IH]; intros k; simpl; [discriminate|].
  destruct k; [|apply IH].
  destruct (starts_with sep (c :: s)); [discriminate|apply cons_head_not_nil].
Qed.

Lemma split_not_nil sep s : split sep s <> [].
Proof. apply split_from_not_nil. Qed.

Lemma cons_head_Forall (P : char -> Prop) c l :
  P c -> Forall (Forall P) l -> Forall (Forall P) (cons_head c l).
Proof.
  intros Hc Hl; destruct Hl as [|p ps Hp Hps]; simpl; repeat constructor; auto.
Qed.

(** Every piece that [split] returns is made of characters of the string. *)
Lemma split_from_Forall (P : char -> Prop) sep k s :
  Forall P s -> Forall (Forall P) (split_from sep k s).
Proof.
  intros H; revert k; induction H as [|c s Hc Hs IH]; intros k; simpl.
  - repeat constructor.
  - destruct k; [|apply IH].
    destruct (starts_with sep (c :: s)).
    + constructor; [constructor|apply IH].
    + apply cons_head_Forall; [exact Hc|apply IH].
Qed.

Lemma split_Forall (P : char -> Prop) sep s :
  Forall P s -> Forall (Forall P) (split sep s).
Proof. apply split_from_Forall. Qed.

Lemma lstrip_Forall (P : char -> Prop) s : Forall P s -> Forall P (lstrip s).
Proof.
  induction 1 as [|c s Hc Hs IH]; simpl; [constructor|].
  destruct (isspace c); [exact IH|constructor; assumption].
Qed.

Lemma rstrip_Forall (P : char -> Prop) s : Forall P s -> Forall P (rstrip s).
Proof.
  induction 1 as [|c s Hc Hs IH]; simpl; [constructor|].
  destruct (rstrip s).
  - destruct (isspace c); repeat constructor; assumption.
  - constructor; assumption.
Qed.

Lemma strip_Forall (P : char -> Prop) s : Forall P s -> Forall P (strip s).
Proof. intros H; apply rstrip_Forall, lstrip_Forall, H. Qed.

Lemma kept_ws pieces : Forall ws pieces -> kept pieces = [].
Proof.
  induction 1 as [|p ps Hp _ IH]; [reflexivity|].
  unfold kept in *; simpl. now rewrite (strip_ws _ Hp).
Qed.

Lemma tail_eq_refl X : X <> [] -> tail_eq X X.
Proof.
  induction X as [|p X IH]; [congruence|intros _].
  destruct X as [|q X].
  - now apply tail_eq_last.
  - apply tail_eq_cons, IH; discriminate.
Qed.

Lemma tail_eq_cons_head a X Y :
  tail_eq X Y -> tail_eq (cons_head a X) (cons_head a Y).
Proof.
  destruct 1 as [p q tx ty E Hx Hy|p X Y H]; simpl.
  - apply tail_eq_last; [now apply rstrip_cons|assumption|assumption].
  - now apply tail_eq_cons.
Qed.

Lemma tail_eq_kept X Y : tail_eq X Y -> kept X = kept Y.
Proof.
  induction 1 as [p q tx ty E Hx Hy|p X Y H IH].
  - unfold kept; simpl. fold (kept tx) (kept ty).
    rewrite (kept_ws _ Hx), (kept_ws _ Hy).
    unfold strip. now rewrite <- !lstrip_rstrip, E.
  - unfold kept in *; simpl. now rewrite IH.
Qed.

(** White space appended to a line changes its pieces only at the end. *)
Lemma split2_app_ws w : ws w ->
  forall l, tail_eq (split (lit "  ") (l ++ w)) (split (lit "  ") l).
Proof.
  intros Hw l; induction l as [|a|a b l IHl IHbl] using list_ind2.
  - cbn [app]. rewrite split2_nil.
    pose proof (split_not_nil (lit "  ") w) as Hn.
    pose proof (split_Forall _ (lit "  ") _ Hw) as Hp.
    destruct (split (lit "  ") w) as [|p ps]; [congruence|].
    inversion Hp as [|? ? Hp1 Hp2]; subst.
    apply tail_eq_last; [now rewrite (rstrip_ws _ Hp1)|assumption|constructor].
  - destruct Hw as [|b w Hb Hw]; [apply tail_eq_refl, split_not_nil|].
    cbn [app]. rewrite split2_cons2, split2_one.
    destruct ((a =? SP) && (b =? SP)) eqn:E.
    + apply andb_prop in E as [Ea _]. apply N.eqb_eq in Ea; subst a.
      apply tail_eq_last; [reflexivity| |constructor].
      now apply split_Forall.
    + pose proof (split_not_nil (lit "  ") (b :: w)) as Hn.
      assert (Hp : Forall ws (split (lit "  ") (b :: w)))
        by (apply split_Forall; constructor; assumption).
      destruct (split (lit "  ") (b :: w)) as [|p ps]; [congruence|].
      inversion Hp as [|? ? Hp1 Hp2]; subst. cbn [cons_head].
      apply tail_eq_last; [|assumption|constructor].
      apply rstrip_cons. now rewrite (rstrip_ws _ Hp1).
  - cbn [app]. rewrite !split2_cons2.
    destruct ((a =? SP) && (b =? SP)).
    + apply tail_eq_cons, IHl.
    + apply tail_eq_cons_head, IHbl.
Qed.

Lemma kept_split2_app_ws l w : ws w ->
  kept (split (lit "  ") (l ++ w)) = kept (split (lit "  ") l).
Proof. intros Hw; apply tail_eq_kept, split2_app_ws, Hw. Qed.

(** White space in front of a line adds no surviving fragment. *)
Lemma kept_split2_cons_ws l : forall c, isspace c = true ->
  kept (split (lit "  ") (c :: l)) = kept (split (lit "  ") l).
Proof.
  induction l as [|b l IH]; intros c Hc.
  - rewrite split2_one, split2_nil. unfold kept; simpl.
    now rewrite (strip_cons_ws c [] Hc).
  - rewrite split2_cons2.
    destruct ((c =? SP) && (b =? SP)) eqn:E.
    + apply andb_prop in E as [_ Eb]. apply N.eqb_eq in Eb; subst b.
      rewrite (IH SP eq_refl). reflexivity.
    + pose proof (split_not_nil (lit "  ") (b :: l)) as Hn.
      destruct (split (lit "  ") (b :: l)) as [|p ps]; [congruence|].
      unfold kept; simpl. now rewrite (strip_cons_ws c p Hc).
Qed.

Lemma kept_split2_lstrip l :
  kept (split (lit "  ") (lstrip l)) = kept (split (lit "  ") l).
Proof.
  induction l as [|c l IH]; [reflexivity|].
  simpl. destruct (isspace c) eqn:Hc; [|reflexivity].
  now rewrite IH, (kept_split2_cons_ws l c Hc).
Qed.

(** Trimming a line before splitting it leaves the surviving fragments
    as they are. *)
Lemma kept_split2_strip l :
  kept (split (lit "  ") (strip l)) = kept (split (lit "  ") l).
Proof.
  destruct (lstrip_rstrip_tail l) as (w & Hw & E).
  rewrite <- (kept_split2_lstrip l), E.
  symmetry; apply kept_split2_app_ws, Hw.
Qed.

(** The cleaning step of the program and the one the specification
    words agree on every text. *)
Lemma clean_up_as_specified text : clean_up text = clean_text_as_specified text.
Proof.
  unfold clean_up, clean_text_as_specified. f_equal.
  induction (splitlines text) as [|l L IH]; [reflexivity|].
  cbn [map flat_map]. rewrite map_app, !filter_app, IH. f_equal.
  apply kept_split2_strip.
Qed.

Lemma splitlines_cons c s :
  splitlines (c :: s) =
  if is_linebreak c then
    match s with
    | c' :: s'' =>
        if (c =? CR) && (c' =? LF) then [] :: splitlines s''
        else [] :: splitlines s
    | [] => [[]]
    end
  else
    match splitlines s with
    | [] => [[c]]
    | l :: ls => (c :: l) :: ls
    end.
Proof. reflexivity. Qed.

Lemma splitlines_no_linebreak s : Forall no_linebreak (splitlines s).
Proof.
  induction s as [|a|a b s IHs IHbs] using list_ind2.
  - constructor.
  - rewrite splitlines_cons. cbn [splitlines].
    destruct (is_linebreak a) eqn:Ha; repeat constructor; assumption.
  - rewrite splitlines_cons.
    destruct (is_linebreak a) eqn:Ha.
    + destruct ((a =? CR) && (b =? LF)); constructor; try constructor; assumption.
    + destruct (splitlines (b :: s)) as [|l ls]; [repeat constructor; assumption|].
      inversion IHbs; subst. constructor; [constructor|]; assumption.
Qed.

Lemma splitlines_app_LF p s :
  no_linebreak p -> splitlines (p ++ LF :: s) = p :: splitlines s.
Proof.
  induction 1 as [|c p Hc Hp IH]; cbn [app].
  - rewrite splitlines_cons.
    change (is_linebreak LF) with true. change (LF =? CR) with false.
    destruct s; reflexivity.
  - now rewrite splitlines_cons, Hc, IH.
Qed.

Lemma splitlines_single p :
  no_linebreak p -> p <> [] -> splitlines p = [p].
Proof.
  induction 1 as [|c p Hc Hp IH]; [congruence|intros _].
  rewrite splitlines_cons, Hc.
  destruct p as [|d p]; [reflexivity|].
  rewrite IH; [reflexivity|discriminate].
Qed.

(** Joining with line feeds and splitting into lines again gives the
    parts back, when no part is empty or holds a line break. *)
Lemma splitlines_join parts :
  Forall (fun p => no_linebreak p /\ p <> []) parts ->
  splitlines (join [LF] parts) = parts.
Proof.
  induction 1 as [|p rest [Hp Hne] Hrest IH]; [reflexivity|].
  destruct rest as [|q rest].
  - now apply splitlines_single.
  - change (join [LF] (p :: q :: rest)) with (p ++ LF :: join [LF] (q :: rest)).
    now rewrite (splitlines_app_LF _ _ Hp), IH.
Qed.

Lemma rstrip_has_text s : rstrip s <> [] -> has_text (rstrip s) = true.
Proof.
  unfold has_text. induction s as [|c s IH]; [simpl; congruence|].
  simpl. destruct (rstrip s) as [|r rs] eqn:E.
  - destruct (isspace c) eqn:Hc; [congruence|intros _].
    simpl. now rewrite Hc.
  - intros _. assert (H : r :: rs <> []) by discriminate.
    apply IH in H. cbn [existsb] in *. rewrite H. apply orb_true_r.
Qed.

Lemma nonempty_true s : nonempty s = true <-> s <> [].
Proof. destruct s; simpl; split; congruence. Qed.

Lemma strip_has_text s : nonempty (strip s) = true -> has_text (strip s) = true.
Proof. intros H; apply rstrip_has_text, nonempty_true, H. Qed.

(** What the cleaning step joins: trimmed pieces of lines, none empty. *)
Lemma clean_up_chunks text :
  exists chunks,
    clean_up text = join [LF] chunks /\
    Forall (fun p => no_linebreak p /\ p <> []) chunks /\
    Forall (fun p => has_text p = true) chunks.
Proof.
  unfold clean_up.
  set (chunks := flat_map _ _).
  exists (filter nonempty chunks); split; [reflexivity|].
  assert (Hc : forall p, In p (filter nonempty chunks) ->
                 no_linebreak p /\ p <> [] /\ has_text p = true).
  { intros p Hin. apply filter_In in Hin as [Hin Hne].
    apply in_flat_map in Hin as (line & Hline & Hp).
    apply in_map_iff in Hp as (piece & <- & Hpiece).
    apply in_map_iff in Hline as (l & <- & Hl).
    split; [|split; [now apply nonempty_true|now apply strip_has_text]].
    apply strip_Forall.
    assert (Hs : Forall no_linebreak (split (lit "  ") (strip l))).
    { apply split_Forall, strip_Forall.
      pose proof (splitlines_no_linebreak text) as Hall.
      rewrite Forall_forall in Hall. now apply Hall. }
    rewrite Forall_forall in Hs. now apply Hs. }
  split; apply Forall_forall; intros p Hin; apply Hc in Hin; tauto.
Qed.

(** Every line of a cleaned text holds a character that is not white
    space. *)
Lemma clean_up_lines text :
  Forall (fun line => has_text line = true) (splitlines (clean_up text)).
Proof.
  destruct (clean_up_chunks text) as (chunks & -> & H1 & H2).
  now rewrite splitlines_join.
Qed.

(** The same with the text cut at its line feeds, [s.split("\n")]. *)
Lemma split_LF_cons c s :
  split [LF] (c :: s) =
  if c =? LF then [] :: split [LF] s else cons_head c (split [LF] s).
Proof.
  unfold split. rewrite split_from_0. cbn [starts_with length pred].
  now rewrite andb_true_r, (N.eqb_sym LF c).
Qed.

Lemma no_linebreak_LF c : is_linebreak c = false -> (c =? LF) = false.
Proof.
  intros H. destruct (N.eqb_spec c LF) as [->|]; [discriminate H|reflexivity].
Qed.

Lemma split_LF_single p : no_linebreak p -> split [LF] p = [p].
Proof.
  induction 1 as [|c p Hc Hp IH]; [reflexivity|].
  now rewrite split_LF_cons, (no_linebreak_LF _ Hc), IH.
Qed.

Lemma split_LF_app p s :
  no_linebreak p -> split [LF] (p ++ LF :: s) = p :: split [LF] s.
Proof.
  induction 1 as [|c p Hc Hp IH]; cbn [app].
  - now rewrite split_LF_cons.
  - now rewrite split_LF_cons, (no_linebreak_LF _ Hc), IH.
Qed.

Lemma split_LF_join parts :
  parts <> [] -> Forall (fun p => no_linebreak p /\ p <> []) parts ->
  split [LF] (join [LF] parts) = parts.
Proof.
  intros Hne H. induction H as [|p rest [Hp _] Hrest IH]; [congruence|].
  destruct rest as [|q rest].
  - now apply split_LF_single.
  - change (join [LF] (p :: q :: rest)) with (p ++ LF :: join [LF] (q :: rest)).
    rewrite (split_LF_app _ _ Hp), IH; [reflexivity|discriminate].
Qed.

Lemma clean_up_split_LF text :
  clean_up text = []
  \/ Forall (fun line => has_text line = true) (split [LF] (clean_up text)).
Proof.
  destruct (clean_up_chunks text) as (chunks & -> & H1 & H2).
  destruct chunks as [|p rest]; [now left|right].
  rewrite split_LF_join; [exact H2|discriminate|exact H1].
Qed.

End StringFacts.

(** ** The parsed page *)

Section TreeFacts.

Lemma PageElement_induction (P : PageElement -> Prop) :
  (forall cls s, P (Str cls s)) ->
  (forall i n cs, Forall P cs -> P (Tag i n cs)) ->
  forall e, P e.
Proof.
  intros HS HT. fix IH 1. intros [cls s|i n cs]; [apply HS|apply HT].
  induction cs as [|c cs IHcs]; constructor; [apply IH|exact IHcs].
Qed.

Lemma eqb_eq a b : PyStr.eqb a b = true <-> a = b.
Proof.
  revert b; induction a as [|x a IH]; intros [|y b]; simpl;
    try (split; congruence).
  rewrite andb_true_iff, N.eqb_eq, IH. split; [intros [-> ->]|intros [= -> ->]]; auto.
Qed.

Lemma eqb_refl a : PyStr.eqb a a = true.
Proof. now apply eqb_eq. Qed.

Lemma is_tag_named_one name e :
  is_tag_named [name] e = true <-> exists i cs, e = Tag i name cs.
Proof.
  destruct e as [cls s|i n cs]; simpl.
  - split; [discriminate|intros (i & cs & [=])].
  - rewrite orb_false_r, eqb_eq. split.
    + intros ->; now exists i, cs.
    + now intros (i' & cs' & [= _ -> _]).
Qed.

Lemma filter_none (A : Type) (f : A -> bool) l :
  (forall x, In x l -> f x = false) -> filter f l = [].
Proof.
  induction l as [|x l IH]; intros H; [reflexivity|].
  simpl. rewrite (H x) by now left.
  apply IH. intros y Hy; apply H; now right.
Qed.

Lemma not_named name x :
  (forall i cs, x <> Tag i name cs) -> is_tag_named [name] x = false.
Proof.
  intros H. destruct (is_tag_named [name] x) eqn:Hx; [|reflexivity].
  apply is_tag_named_one in Hx as (i & cs & ->). now destruct (H i cs).
Qed.

(** [find] returns the first tag of that name in document order. *)
Lemma find_first name e pre i cs post :
  descendants e = pre ++ Tag i name cs :: post ->
  (forall j cs', ~ In (Tag j name cs') pre) ->
  find name e = Some (Tag i name cs).
Proof.
  intros E Hpre. unfold find, find_all. rewrite E, filter_app.
  rewrite filter_none.
  - simpl. now rewrite eqb_refl.
  - intros x Hx. apply not_named. intros j cs' ->. exact (Hpre j cs' Hx).
Qed.

Lemma find_none name e :
  (forall i cs, ~ In (Tag i name cs) (descendants e)) -> find name e = None.
Proof.
  intros H. unfold find, find_all. rewrite filter_none; [reflexivity|].
  intros x Hx. apply not_named. intros i cs ->. exact (H i cs Hx).
Qed.

Lemma flat_map_flat_map (A B C : Type) (f : A -> list B) (g : B -> list C) l :
  flat_map g (flat_map f l) = flat_map (fun x => flat_map g (f x)) l.
Proof.
  induction l as [|x l IH]; [reflexivity|].
  cbn [flat_map]. now rewrite flat_map_app, IH.
Qed.

Lemma filter_flat_map (A B : Type) (p : B -> bool) (f : A -> list B) l :
  filter p (flat_map f l) = flat_map (fun x => filter p (f x)) l.
Proof.
  induction l as [|x l IH]; [reflexivity|].
  cbn [flat_map]. now rewrite filter_app, IH.
Qed.

Lemma map_flat_map (A B C : Type) (g : B -> C) (f : A -> list B) l :
  map g (flat_map f l) = flat_map (fun x => map g (f x)) l.
Proof.
  induction l as [|x l IH]; [reflexivity|].
  cbn [flat_map]. now rewrite map_app, IH.
Qed.

Lemma flat_map_ext_Forall (A B : Type) (f g : A -> list B) l :
  Forall (fun x => f x = g x) l -> flat_map f l = flat_map g l.
Proof.
  induction 1 as [|x l Hx _ IH]; [reflexivity|].
  cbn [flat_map]. now rewrite Hx, IH.
Qed.

Lemma flat_map_singleton (A : Type) (f : A -> A) l :
  Forall (fun x => f x = x) l -> flat_map (fun x => [f x]) l = l.
Proof.
  induction 1 as [|x l Hx _ IH]; [reflexivity|].
  cbn [flat_map app]. now rewrite Hx, IH.
Qed.

Lemma In_contents c i n cs : In c cs -> In c (descendants (Tag i n cs)).
Proof.
  intros H. cbn [descendants]. apply in_flat_map. exists c; split; [exact H|now left].
Qed.

Lemma In_below x c i n cs :
  In c cs -> In x (descendants c) -> In x (descendants (Tag i n cs)).
Proof.
  intros H Hx. cbn [descendants]. apply in_flat_map.
  exists c; split; [exact H|now right].
Qed.

(** *** The loop of decompositions *)

Lemma same_object_removed t c : same_object t c = removed (object_id t) c.
Proof.
  destruct t as [|i n cs], c as [|j m ds]; try reflexivity.
  cbn [same_object removed object_id existsb].
  rewrite orb_false_r. apply Nat.eqb_sym.
Qed.

Lemma removed_app A B c : removed (A ++ B) c = removed A c || removed B c.
Proof. destruct c; [reflexivity|]. cbn [removed]. apply existsb_app. Qed.

Lemma removed_remove A B c : removed B (remove A c) = removed B c.
Proof. destruct c; reflexivity. Qed.

(** One decomposition takes out the tag of that identity. *)
Lemma decompose_remove t e : decompose t e = remove (object_id t) e.
Proof.
  induction e as [cls s|i n cs IH] using PageElement_induction; [reflexivity|].
  cbn [decompose remove]. f_equal. apply flat_map_ext_Forall.
  apply (Forall_impl _ (P := fun c => decompose t c = remove (object_id t) c));
    [|exact IH].
  intros c Hc. now rewrite same_object_removed, Hc.
Qed.

Lemma remove_nil e : remove [] e = e.
Proof.
  induction e as [cls s|i n cs IH] using PageElement_induction; [reflexivity|].
  cbn [remove]. f_equal.
  rewrite <- (flat_map_singleton _ (remove []) cs IH) at 2.
  apply flat_map_ext_Forall, Forall_forall. intros c _. now destruct c.
Qed.

Lemma remove_remove A B e : remove B (remove A e) = remove (A ++ B) e.
Proof.
  induction e as [cls s|i n cs IH] using PageElement_induction; [reflexivity|].
  cbn [remove]. f_equal. rewrite flat_map_flat_map.
  apply flat_map_ext_Forall.
  apply (Forall_impl _ (P := fun c => remove B (remove A c) = remove (A ++ B) c));
    [|exact IH].
  intros c Hc. rewrite removed_app.
  destruct (removed A c) eqn:HA; [reflexivity|].
  cbn [flat_map app orb]. rewrite removed_remove, Hc, app_nil_r. reflexivity.
Qed.

(** The whole loop takes out the tags of the identities in its list. *)
Lemma decompose_loop scripts : forall soup,
  fold_left (fun soup script => decompose script soup) scripts soup
  = remove (flat_map object_id scripts) soup.
Proof.
  induction scripts as [|t ts IH]; intros soup; cbn [fold_left flat_map].
  - symmetry; apply remove_nil.
  - now rewrite IH, decompose_remove, remove_remove.
Qed.

Lemma remove_named names ids e :
  (forall x, In x (descendants e) -> removed ids x = is_tag_named names x) ->
  remove ids e = decompose_all names e.
Proof.
  induction e as [cls s|i n cs IH] using PageElement_induction;
    intros H; [reflexivity|].
  cbn [remove decompose_all]. f_equal.
  apply flat_map_ext_Forall, Forall_forall. intros c Hc.
  rewrite Forall_forall in IH.
  rewrite (H c (In_contents c i n cs Hc)).
  destruct (is_tag_named names c); [reflexivity|].
  f_equal. apply (IH c Hc). intros x Hx.
  apply H. exact (In_below x c i n cs Hc Hx).
Qed.

(** Two tags of one identity in a list of distinct objects are one tag. *)
Lemma same_id_same_tag l i n cs n' cs' :
  NoDup (flat_map object_id l) ->
  In (Tag i n cs) l -> In (Tag i n' cs') l -> Tag i n cs = Tag i n' cs'.
Proof.
  induction l as [|a l IH]; [intros _ []|].
  cbn [flat_map]. intros Hnd [Ha|H1] [Hb|H2].
  - congruence.
  - subst a. cbn [object_id app] in Hnd. apply NoDup_cons_iff in Hnd as [Hi _].
    destruct Hi. apply in_flat_map. exists (Tag i n' cs'). split; [exact H2|now left].
  - subst a. cbn [object_id app] in Hnd. apply NoDup_cons_iff in Hnd as [Hi _].
    destruct Hi. apply in_flat_map. exists (Tag i n cs). split; [exact H1|now left].
  - apply IH; [|exact H1|exact H2].
    destruct a as [|j m ds]; cbn [object_id app] in Hnd; [exact Hnd|].
    now apply NoDup_cons_iff in Hnd.
Qed.

(** Among distinct objects, the identities found by name pick the tags
    of that name and no other. *)
Lemma found_ids names e :
  NoDup (tag_ids e) ->
  forall x, In x (descendants e) ->
    removed (flat_map object_id (find_all names e)) x = is_tag_named names x.
Proof.
  intros Hnd [cls s|i n cs] Hx; [reflexivity|]. cbn [removed].
  destruct (is_tag_named names (Tag i n cs)) eqn:Hn.
  - apply existsb_exists. exists i. split; [|apply Nat.eqb_refl].
    apply in_flat_map. exists (Tag i n cs).
    split; [apply filter_In; split; assumption|now left].
  - apply not_true_is_false. intros Hex.
    apply existsb_exists in Hex as (j & Hj & Hij).
    apply Nat.eqb_eq in Hij; subst j.
    apply in_flat_map in Hj as (y & Hy & Hiy).
    apply filter_In in Hy as [Hy Hyn].
    destruct y as [|j n' cs']; [destruct Hiy|].
    destruct Hiy as [->|[]].
    rewrite (same_id_same_tag _ _ _ _ _ _ Hnd Hx Hy) in Hn. congruence.
Qed.

(** After the loop the tree is without its script and style tags. *)
Lemma text_content_of_decompose_all soup :
  NoDup (tag_ids soup) ->
  text_content_of soup
  = get_text (decompose_all [lit "script"; lit "style"] soup).
Proof.
  intros Hnd. unfold text_content_of. rewrite decompose_loop. f_equal.
  apply remove_named. now apply found_ids.
Qed.

(** *** Visible strings *)

Lemma strings_of_contents cs :
  flat_map own_string (flat_map (fun c => c :: descendants c) cs)
  = flat_map strings_of cs.
Proof.
  induction cs as [|c cs IH]; [reflexivity|].
  cbn [flat_map]. rewrite flat_map_app, IH. reflexivity.
Qed.

Lemma decompose_all_Tag i n cs :
  decompose_all [lit "script"; lit "style"] (Tag i n cs)
  = Tag i n (flat_map surviving cs).
Proof. reflexivity. Qed.

(** Below a script or style tag no string is visible. *)
Lemma not_visible_under e : forall ancestors,
  forallb (fun n => negb (hidden n)) ancestors = false ->
  filter visible (strings_under ancestors e) = [].
Proof.
  induction e as [cls s|i n cs IH] using PageElement_induction; intros anc Hanc.
  - cbn [strings_under filter visible]. now rewrite Hanc, andb_false_r.
  - cbn [strings_under]. rewrite filter_flat_map.
    induction IH as [|c cs Hc _ IHcs]; [reflexivity|].
    cbn [flat_map]. rewrite IHcs, Hc; [reflexivity|].
    cbn [forallb]. now rewrite Hanc, andb_false_r.
Qed.

(** What survives of an element after the script and style tags are
    decomposed contributes exactly its visible strings. *)
Lemma surviving_strings e : forall ancestors,
  forallb (fun n => negb (hidden n)) ancestors = true ->
  flat_map strings_of (surviving e)
  = map text_of (filter visible (strings_under ancestors e)).
Proof.
  induction e as [cls s|i n cs IH] using PageElement_induction; intros anc Hanc.
  - unfold surviving, strings_of, visible. simpl.
    rewrite Hanc, andb_true_r.
    destruct (interesting cls); reflexivity.
  - unfold surviving. cbn [is_tag_named]. fold (hidden n).
    destruct (hidden n) eqn:Hn.
    + cbn [flat_map strings_under]. rewrite filter_flat_map.
      assert (Hbad : forallb (fun m => negb (hidden m)) (n :: anc) = false)
        by (cbn [forallb]; now rewrite Hn).
      clear IH. induction cs as [|c cs IHcs]; [reflexivity|].
      cbn [flat_map]. rewrite (not_visible_under c _ Hbad). exact IHcs.
    + rewrite decompose_all_Tag.
      cbn [flat_map strings_of own_string descendants app strings_under].
      rewrite app_nil_r, strings_of_contents, flat_map_flat_map.
      rewrite filter_flat_map, map_flat_map.
      apply flat_map_ext_Forall.
      assert (Hok : forallb (fun m => negb (hidden m)) (n :: anc) = true)
        by (cbn [forallb]; now rewrite Hn, Hanc).
      induction IH as [|c cs Hc _ IHcs]; constructor; [now apply Hc|exact IHcs].
Qed.

(** The text the program extracts from a page is the concatenation of
    its visible strings. *)
Lemma text_content_visible contents :
  NoDup (tag_ids (document contents)) ->
  text_content_of (document contents)
  = concat (map text_of
              (filter visible (flat_map (strings_under []) contents))).
Proof.
  intros Hnd. rewrite (text_content_of_decompose_all _ Hnd).
  unfold document, get_text.
  rewrite decompose_all_Tag. cbn [descendants].
  rewrite strings_of_contents, flat_map_flat_map.
  rewrite filter_flat_map, map_flat_map. f_equal.
  apply flat_map_ext_Forall, Forall_forall.
  intros c _. now apply surviving_strings.
Qed.

Lemma surviving_replace_hidden f e :
  surviving (replace_hidden f e) = surviving e.
Proof.
  induction e as [cls s|i n cs IH] using PageElement_induction; [reflexivity|].
  cbn [replace_hidden]. destruct (hidden n) eqn:Hn.
  - unfold surviving. cbn [is_tag_named]. fold (hidden n). now rewrite Hn.
  - unfold surviving. cbn [is_tag_named]. fold (hidden n). rewrite Hn.
    rewrite !decompose_all_Tag. do 2 f_equal.
    induction IH as [|c cs Hc _ IHcs]; [reflexivity|].
    cbn [map flat_map]. now rewrite Hc, IHcs.
Qed.

(** Whatever stands inside the script and style tags, the extracted text
    is the same. *)
Lemma text_content_replace_hidden f contents :
  NoDup (tag_ids (document contents)) ->
  NoDup (tag_ids (document (map (replace_hidden f) contents))) ->
  text_content_of (document (map (replace_hidden f) contents))
  = text_content_of (document contents).
Proof.
  intros Hnd Hnd'.
  rewrite (text_content_of_decompose_all _ Hnd),
          (text_content_of_decompose_all _ Hnd').
  unfold document. rewrite !decompose_all_Tag. do 2 f_equal.
  induction contents as [|c cs IH]; [reflexivity|].
  cbn [map flat_map]. rewrite surviving_replace_hidden. f_equal.
  clear. induction cs as [|c cs IH]; [reflexivity|].
  cbn [map flat_map]. now rewrite surviving_replace_hidden, IH.
Qed.

End TreeFacts.

(** ** scrape_website *)

Section PipelineFacts.

Variable WebDriver : Type.
Implicit Types (env : Env WebDriver) (driver : WebDriver).

Lemma scrape_website_outcome env url driver :
  outcome env url driver (snd (scrape_website env url driver)).
Proof.
  unfold scrape_website, scrape_body.
  cbv beta iota delta [bind call emit lift ret].
  destruct (driver_get env driver url) as [[]|e] eqn:Hget;
    [|now apply navigation_failed].
  destruct (driver_page_source env driver url) as [src|e] eqn:Hsrc;
    [|now apply page_source_failed].
  destruct (BeautifulSoup env src) as [contents|e] eqn:Hparse.
  - now apply scraped with (src := src) (contents := contents).
  - now apply parsing_failed with (src := src).
Qed.

Lemma scrape_website_success env url driver src contents :
  driver_get env driver url = Ok tt ->
  driver_page_source env driver url = Ok src ->
  BeautifulSoup env src = Ok contents ->
  snd (scrape_website env url driver) = success_result src contents.
Proof.
  intros Hget Hsrc Hparse.
  unfold scrape_website, scrape_body.
  cbv beta iota delta [bind call emit lift ret].
  rewrite Hget, Hsrc, Hparse. reflexivity.
Qed.

Lemma error_is_not_success e : lit "error: " ++ e <> lit "success".
Proof. cbv. congruence. Qed.

End PipelineFacts.

(** * The claims *)

Section Claims.

Variable WebDriver : Type.
Implicit Types (env : Env WebDriver) (driver : WebDriver) (p : Process WebDriver).

(** C1: when the parse of the page holds a title element, the extracted
    title is the trimmed text of the first one in document order; when it
    holds none, the extracted title is the string "No title found". *)
Theorem scrape_website_title env url driver src contents :
  driver_get env driver url = Ok tt ->
  driver_page_source env driver url = Ok src ->
  BeautifulSoup env src = Ok contents ->
  let result := snd (scrape_website env url driver) in
  (forall pre i cs post,
      descendants (document contents) = pre ++ Tag i (lit "title") cs :: post ->
      (forall j cs', ~ In (Tag j (lit "title") cs') pre) ->
      title result = strip (get_text (Tag i (lit "title") cs)))
  /\ ((forall i cs,
          ~ In (Tag i (lit "title") cs) (descendants (document contents))) ->
      title result = lit "No title found").
Proof.
  intros Hget Hsrc Hparse result. subst result.
  rewrite (scrape_website_success _ _ _ _ _ _ Hget Hsrc Hparse).
  cbn [title success_result]. unfold title_text_of. split.
  - intros pre i cs post E Hpre. now rewrite (find_first _ _ _ _ _ _ E Hpre).
  - intros Hnone. now rewrite (find_none _ _ Hnone).
Qed.

(** C2: nothing inside a script or style element reaches clean_text: the
    clean text is built from exactly those strings of the parse that have
    no script or style tag around them, and it stays the same whatever
    the script and style elements contain.  The tags of a parse are
    distinct objects. *)
Theorem scrape_website_hides_script_and_style env url driver src contents :
  driver_get env driver url = Ok tt ->
  driver_page_source env driver url = Ok src ->
  BeautifulSoup env src = Ok contents ->
  NoDup (tag_ids (document contents)) ->
  clean_text (snd (scrape_website env url driver))
  = clean_up (concat (map text_of
       (filter visible (flat_map (strings_under []) contents))))
  /\ (forall f env' url' driver' src',
        driver_get env' driver' url' = Ok tt ->
        driver_page_source env' driver' url' = Ok src' ->
        BeautifulSoup env' src' = Ok (map (replace_hidden f) contents) ->
        NoDup (tag_ids (document (map (replace_hidden f) contents))) ->
        clean_text (snd (scrape_website env' url' driver'))
        = clean_text (snd (scrape_website env url driver))).
Proof.
  intros Hget Hsrc Hparse Hnd.
  rewrite (scrape_website_success _ _ _ _ _ _ Hget Hsrc Hparse).
  cbn [clean_text success_result]. split.
  - now rewrite text_content_visible.
  - intros f env' url' driver' src' Hget' Hsrc' Hparse' Hnd'.
    rewrite (scrape_website_success _ _ _ _ _ _ Hget' Hsrc' Hparse').
    cbn [clean_text success_result].
    now rewrite text_content_replace_hidden.
Qed.

(** C3: clean_text is the text extracted after the script and style
    removal, split into lines, each line split on two consecutive spaces,
    each fragment trimmed, the empty fragments dropped and the rest
    joined with newlines. *)
Theorem scrape_website_clean_text_as_specified env url driver src contents :
  driver_get env driver url = Ok tt ->
  driver_page_source env driver url = Ok src ->
  BeautifulSoup env src = Ok contents ->
  clean_text (snd (scrape_website env url driver))
  = clean_text_as_specified (text_content_of (document contents)).
Proof.
  intros Hget Hsrc Hparse.
  rewrite (scrape_website_success _ _ _ _ _ _ Hget Hsrc Hparse).
  cbn [clean_text success_result]. apply clean_up_as_specified.
Qed.

(** C4: when navigation, reading the markup back or parsing raises, the
    pipeline still returns a result: title, raw markup and clean text are
    empty and the status is "error: " followed by the exception message. *)
Theorem scrape_website_catches env url driver e :
  driver_get env driver url = Raise e
  \/ (driver_get env driver url = Ok tt
      /\ driver_page_source env driver url = Raise e)
  \/ (exists src,
        driver_get env driver url = Ok tt
        /\ driver_page_source env driver url = Ok src
        /\ BeautifulSoup env src = Raise e) ->
  let result := snd (scrape_website env url driver) in
  title result = [] /\ raw_html result = [] /\ clean_text result = []
  /\ status result = lit "error: " ++ e.
Proof.
  intros H result. subst result.
  assert (E : snd (scrape_website env url driver) = error_result e).
  { unfold scrape_website, scrape_body.
    cbv beta iota delta [bind call emit lift ret].
    destruct H as [Hget|[[Hget Hsrc]|(src & Hget & Hsrc & Hparse)]].
    - now rewrite Hget.
    - now rewrite Hget, Hsrc.
    - now rewrite Hget, Hsrc, Hparse. }
  rewrite E. repeat split.
Qed.

(** C6: the first call of get_driver in a process starts Chrome; every
    later call in that process returns the session made then and starts
    nothing. *)
Theorem get_driver_created_once env driver (later : list (Env WebDriver)) :
  Chrome env chrome_arguments = Ok driver ->
  exists p,
    get_driver env fresh = ([call_Chrome chrome_arguments], Some driver, p)
    /\ get_driver_calls later p = (map (fun _ => ([], Some driver)) later, p).
Proof.
  intros Hstart. unfold get_driver, get_driver_body. cbn [get_driver_cache fresh].
  rewrite Hstart.
  exists {| get_driver_cache := Some (Some driver, []) |}.
  split; [reflexivity|].
  induction later as [|env' later IH]; [reflexivity|].
  cbn [get_driver_calls map]. unfold get_driver at 1. cbn [get_driver_cache].
  now rewrite IH.
Qed.

(** The other side of the cache: once the body has failed, its None is
    what every later call returns, and Chrome is not started again. *)
Lemma get_driver_failure_cached env e (later : list (Env WebDriver)) :
  Chrome env chrome_arguments = Raise e ->
  let report := st_error (lit "Failed to initialize Chrome driver: " ++ e) in
  exists p,
    get_driver env fresh = ([call_Chrome chrome_arguments; report], None, p)
    /\ get_driver_calls later p = (map (fun _ => ([report], None)) later, p).
Proof.
  intros Hstart report. unfold get_driver, get_driver_body.
  cbn [get_driver_cache fresh]. rewrite Hstart.
  exists {| get_driver_cache := Some (None, [report]) |}.
  split; [reflexivity|].
  induction later as [|env' later IH]; [reflexivity|].
  cbn [get_driver_calls map]. unfold get_driver at 1. cbn [get_driver_cache].
  now rewrite IH.
Qed.

(** C7: every line of clean_text holds at least one character that is
    not white space, whether the lines are those of [splitlines] or the
    pieces between line feeds of a clean_text that is not empty. *)
Theorem scrape_website_clean_text_lines env url driver :
  let text := clean_text (snd (scrape_website env url driver)) in
  Forall (fun line => has_text line = true) (splitlines text)
  /\ (text = [] \/ Forall (fun line => has_text line = true) (split [LF] text)).
Proof.
  destruct (scrape_website_outcome _ env url driver);
    cbn [clean_text error_result success_result splitlines];
    try (split; [constructor|now left]).
  split; [apply clean_up_lines|apply clean_up_split_LF].
Qed.

(** What the first two tabs write for a result. *)
Lemma tabs_display (result : ScrapeResult) :
  tab2 result
  = [st_subheader (lit "Raw HTML Source");
     st_code (display_as_specified 3000 (raw_html result))]
  /\ tab1 result
     = st_subheader (lit "Extracted Text Content")
       :: match clean_text result with
          | [] => [st_warning (lit "No text content found on the page.")]
          | _ :: _ =>
              [st_text_area (lit "Clean Text Content:")
                 (display_as_specified 5000 (clean_text result))]
          end.
Proof.
  assert (D : forall limit s,
             slice_to limit s ++ (if limit <? len s then lit "..." else [])
             = display_as_specified limit s).
  { intros limit s. unfold display_as_specified, slice_to, len.
    destruct (N.leb_spec (N.of_nat (length s)) limit) as [Hle|Hgt].
    - apply N.ltb_ge in Hle as Hlt. rewrite Hlt, app_nil_r.
      apply firstn_all2. lia.
    - apply N.ltb_lt in Hgt. now rewrite Hgt. }
  unfold tab1, tab2. rewrite !D. split; [reflexivity|].
  destruct (clean_text result); reflexivity.
Qed.

(** A successful result, field by field. *)
Lemma scrape_website_success_fields env url driver :
  status (snd (scrape_website env url driver)) = lit "success" ->
  exists src contents,
    driver_page_source env driver url = Ok src
    /\ BeautifulSoup env src = Ok contents
    /\ raw_html (snd (scrape_website env url driver)) = src
    /\ title (snd (scrape_website env url driver))
       = title_text_of (document contents)
    /\ clean_text (snd (scrape_website env url driver))
       = clean_up (text_content_of (document contents)).
Proof.
  destruct (scrape_website_outcome _ env url driver) as [e ?|e ? ?|src e ? ? ?|src contents ? ? ?];
    cbn [status error_result];
    try (intros Hs; exfalso; exact (error_is_not_success _ Hs)).
  intros _. exists src, contents. repeat split; assumption.
Qed.

(** C10: with an empty URL the handler writes the warning and nothing
    else: no call goes to the browser and the process is left as it was,
    at one click and over any series of such clicks. *)
Theorem on_click_empty_url env p :
  on_click env [] p = ([st_warning (lit "Please enter a valid URL.")], p)
  /\ forall envs : list (Env WebDriver),
       clicks (map (fun env' => (env', [])) envs) p
       = (map (fun _ => [st_warning (lit "Please enter a valid URL.")]) envs, p).
Proof.
  split; [reflexivity|].
  induction envs as [|env' envs IH]; [reflexivity|].
  cbn [map clicks]. unfold on_click at 1. cbn [nonempty]. rewrite IH. reflexivity.
Qed.

(** C8, amended: on a successful scrape the handler writes, after the
    success banner and the tabs, the clean-text panel and the raw-markup
    panel: the raw-markup panel shows the raw markup cut at 3000
    characters, with an ellipsis exactly when it is longer; the clean-text
    panel shows a non-empty clean text cut at 5000 characters in the same
    way, and a warning in place of the text area when the clean text is
    empty. *)
Theorem on_click_panels_display env url_input p t1 driver p' :
  nonempty url_input = true ->
  get_driver env p = (t1, Some driver, p') ->
  let result := snd (scrape_website env url_input driver) in
  status result = lit "success" ->
  fst (on_click env url_input p)
  = t1 ++ fst (scrape_website env url_input driver)
    ++ (st_success (lit "Scraping completed successfully!")
        :: st_tabs [lit "Page Content"; lit "Raw HTML"; lit "Page Title"]
        :: (st_subheader (lit "Extracted Text Content")
            :: match clean_text result with
               | [] => [st_warning (lit "No text content found on the page.")]
               | _ :: _ =>
                   [st_text_area (lit "Clean Text Content:")
                      (display_as_specified 5000 (clean_text result))]
               end)
        ++ [st_subheader (lit "Raw HTML Source");
            st_code (display_as_specified 3000 (raw_html result))]
        ++ tab3 result url_input)
    ++ [call_quit].
Proof.
  intros Hne E result Hs. subst result.
  unfold on_click. rewrite Hne, E.
  destruct (scrape_website env url_input driver) as [t2 result].
  cbn [fst snd] in *. rewrite Hs, eqb_refl.
  destruct (tabs_display result) as [H2 H1]. rewrite H1, H2.
  reflexivity.
Qed.

End Claims.

(** C9: on a successful scrape raw_html is the markup the session gave
    back, and the title is read from the parse as it was before the
    script and style elements were removed; the removal bears on
    clean_text only.  So what a script element holds can stand in
    raw_html and be missing from clean_text, as on the worked page. *)
Theorem scrape_website_raw_html :
  (forall (WebDriver : Type) (env : Env WebDriver) url driver,
      let result := snd (scrape_website env url driver) in
      status result = lit "success" ->
      exists src contents,
        driver_page_source env driver url = Ok src
        /\ BeautifulSoup env src = Ok contents
        /\ raw_html result = src
        /\ title result = title_text_of (document contents)
        /\ clean_text result
           = clean_up (text_content_of (document contents)))
  /\ (let result := snd (scrape_website Demo.env Demo.url 1%nat) in
      status result = lit "success"
      /\ contains (lit "x=1") (raw_html result) = true
      /\ contains (lit "x=1") (clean_text result) = false).
Proof.
  split.
  - intros WebDriver env url driver result. subst result.
    apply scrape_website_success_fields.
  - vm_compute. repeat split.
Qed.

(** C5: a failed start of Chrome is written to the page and get_driver
    yields no session; the cache keeps that outcome, so the next click
    starts nothing and fails again, with an outside where Chrome would
    start. *)
Theorem failed_start_is_kept :
  fst (clicks [(Demo.env_no_chrome, Demo.url); (Demo.env, Demo.url)] fresh)
  = [[call_Chrome chrome_arguments;
      st_error (lit "Failed to initialize Chrome driver: chromedriver not found");
      st_error (lit "Failed to initialize web driver. Please try again.")];
     [st_error (lit "Failed to initialize Chrome driver: chromedriver not found");
      st_error (lit "Failed to initialize web driver. Please try again.")]].
Proof. vm_compute. reflexivity. Qed.

(** ** Instances on the worked page *)

Lemma scrape_website_title_witness :
  driver_get Demo.env 1%nat Demo.url = Ok tt
  /\ driver_page_source Demo.env 1%nat Demo.url = Ok Demo.markup
  /\ BeautifulSoup Demo.env Demo.markup = Ok Demo.contents
  /\ (let result := snd (scrape_website Demo.env Demo.url 1%nat) in
      (forall pre i cs post,
          descendants (document Demo.contents)
          = pre ++ Tag i (lit "title") cs :: post ->
          (forall j cs', ~ In (Tag j (lit "title") cs') pre) ->
          title result = strip (get_text (Tag i (lit "title") cs)))
      /\ ((forall i cs,
              ~ In (Tag i (lit "title") cs)
                  (descendants (document Demo.contents))) ->
          title result = lit "No title found")).
Proof.
  refine (conj eq_refl (conj eq_refl (conj eq_refl _))).
  exact (scrape_website_title nat Demo.env Demo.url 1%nat Demo.markup
           Demo.contents eq_refl eq_refl eq_refl).
Defined.

Lemma scrape_website_hides_script_and_style_witness :
  driver_get Demo.env 1%nat Demo.url = Ok tt
  /\ driver_page_source Demo.env 1%nat Demo.url = Ok Demo.markup
  /\ BeautifulSoup Demo.env Demo.markup = Ok Demo.contents
  /\ NoDup (tag_ids (document Demo.contents))
  /\ clean_text (snd (scrape_website Demo.env Demo.url 1%nat))
     = clean_up (concat (map text_of
         (filter visible (flat_map (strings_under []) Demo.contents))))
  /\ clean_text (snd (scrape_website Demo.env' Demo.url 1%nat))
     = clean_text (snd (scrape_website Demo.env Demo.url 1%nat)).
Proof.
  assert (Hnd : NoDup (tag_ids (document Demo.contents))).
  { repeat (constructor; [simpl; intuition discriminate|]). constructor. }
  assert (Hnd' : NoDup (tag_ids (document
                   (map (replace_hidden Demo.other_script) Demo.contents)))).
  { repeat (constructor; [simpl; intuition discriminate|]). constructor. }
  pose proof (scrape_website_hides_script_and_style nat Demo.env Demo.url
                1%nat Demo.markup Demo.contents eq_refl eq_refl eq_refl Hnd)
    as [Hvisible Hsame].
  refine (conj eq_refl (conj eq_refl (conj eq_refl (conj Hnd (conj Hvisible _))))).
  exact (Hsame Demo.other_script Demo.env' Demo.url 1%nat Demo.markup'
           eq_refl eq_refl eq_refl Hnd').
Defined.

Lemma scrape_website_clean_text_as_specified_witness :
  driver_get Demo.env 1%nat Demo.url = Ok tt
  /\ driver_page_source Demo.env 1%nat Demo.url = Ok Demo.markup
  /\ BeautifulSoup Demo.env Demo.markup = Ok Demo.contents
  /\ clean_text (snd (scrape_website Demo.env Demo.url 1%nat))
     = clean_text_as_specified (text_content_of (document Demo.contents)).
Proof.
  refine (conj eq_refl (conj eq_refl (conj eq_refl _))).
  exact (scrape_website_clean_text_as_specified nat Demo.env Demo.url 1%nat
           Demo.markup Demo.contents eq_refl eq_refl eq_refl).
Defined.

Lemma scrape_website_catches_witness :
  driver_get Demo.env_unreachable 1%nat Demo.url
  = Raise (lit "net::ERR_NAME_NOT_RESOLVED")
  /\ (let result := snd (scrape_website Demo.env_unreachable Demo.url 1%nat) in
      title result = [] /\ raw_html result = [] /\ clean_text result = []
      /\ status result = lit "error: " ++ lit "net::ERR_NAME_NOT_RESOLVED").
Proof.
  split; [reflexivity|].
  apply (scrape_website_catches nat Demo.env_unreachable Demo.url 1%nat
           (lit "net::ERR_NAME_NOT_RESOLVED")).
  left; reflexivity.
Defined.

Lemma get_driver_created_once_witness :
  Chrome Demo.env chrome_arguments = Ok 1%nat
  /\ exists p,
       get_driver Demo.env fresh
       = ([call_Chrome chrome_arguments], Some 1%nat, p)
       /\ get_driver_calls [Demo.env_no_chrome; Demo.env_blank] p
          = ([([], Some 1%nat); ([], Some 1%nat)], p).
Proof.
  split; [reflexivity|].
  exact (get_driver_created_once nat Demo.env 1%nat
           [Demo.env_no_chrome; Demo.env_blank] eq_refl).
Defined.

Lemma on_click_panels_display_witness :
  nonempty Demo.url = true
  /\ get_driver Demo.env fresh
     = ([call_Chrome chrome_arguments], Some 1%nat,
        {| get_driver_cache := Some (Some 1%nat, []) |})
  /\ status (snd (scrape_website Demo.env Demo.url 1%nat)) = lit "success"
  /\ (let result := snd (scrape_website Demo.env Demo.url 1%nat) in
      fst (on_click Demo.env Demo.url fresh)
      = [call_Chrome chrome_arguments]
        ++ fst (scrape_website Demo.env Demo.url 1%nat)
        ++ (st_success (lit "Scraping completed successfully!")
            :: st_tabs [lit "Page Content"; lit "Raw HTML"; lit "Page Title"]
            :: (st_subheader (lit "Extracted Text Content")
                :: match clean_text result with
                   | [] =>
                       [st_warning (lit "No text content found on the page.")]
                   | _ :: _ =>
                       [st_text_area (lit "Clean Text Content:")
                          (display_as_specified 5000 (clean_text result))]
                   end)
            ++ [st_subheader (lit "Raw HTML Source");
                st_code (display_as_specified 3000 (raw_html result))]
            ++ tab3 result Demo.url)
        ++ [call_quit]).
Proof.
  refine (conj eq_refl (conj eq_refl (conj eq_refl _))).
  exact (on_click_panels_display nat Demo.env Demo.url fresh
           [call_Chrome chrome_arguments] 1%nat
           {| get_driver_cache := Some (Some 1%nat, []) |}
           eq_refl eq_refl eq_refl).
Defined.

(** C8 as first stated fails on a page without text: the scrape
    succeeds and no text area is written. *)
Lemma blank_page_shows_no_text_area :
  let result := snd (scrape_website Demo.env_blank Demo.url 1%nat) in
  status result = lit "success"
  /\ ~ In (st_text_area (lit "Clean Text Content:")
             (display_as_specified 5000 (clean_text result)))
          (fst (on_click Demo.env_blank Demo.url fresh)).
Proof.
  vm_compute. split; [reflexivity|].
  intros H. repeat (destruct H as [H|H]; [discriminate H|]). exact H.
Qed.

(** The page of the specification's example: the title is trimmed, the
    script code is left out, and the double space breaks the line. *)
Example demo_result :
  snd (scrape_website Demo.env Demo.url 1%nat)
  = {| title := lit "Demo";
       raw_html := Demo.markup;
       clean_text := lit "Demo Hello" ++ [LF] ++ lit "World";
       status := lit "success" |}.
Proof. vm_compute. reflexivity. Qed.

(** * Further properties of the program *)

(** ** The cleaning step as a normal form *)

Section CleaningFacts.

Lemma linebreak_isspace c : is_linebreak c = true -> isspace c = true.
Proof.
  unfold is_linebreak, isspace. intros H.
  repeat rewrite ?orb_true_iff, ?andb_true_iff, ?N.leb_le, ?N.eqb_eq in *.
  lia.
Qed.

Lemma non_space_app a b : non_space (a ++ b) = non_space a ++ non_space b.
Proof. apply filter_app. Qed.

Lemma non_space_cons_ws c s : isspace c = true -> non_space (c :: s) = non_space s.
Proof. unfold non_space; simpl; intros ->; reflexivity. Qed.

Lemma non_space_lstrip s : non_space (lstrip s) = non_space s.
Proof.
  induction s as [|c s IH]; [reflexivity|].
  cbn [lstrip]. destruct (isspace c) eqn:Hc; [|reflexivity].
  now rewrite IH, (non_space_cons_ws c s Hc).
Qed.

Lemma non_space_cons c p : non_space (c :: p) = non_space [c] ++ non_space p.
Proof. exact (non_space_app [c] p). Qed.

Lemma non_space_rstrip s : non_space (rstrip s) = non_space s.
Proof.
  induction s as [|c s IH]; [reflexivity|].
  cbn [rstrip]. destruct (rstrip s) as [|r rs] eqn:E.
  - rewrite (non_space_cons c s), <- IH.
    destruct (isspace c) eqn:Hc.
    + now rewrite (non_space_cons_ws c [] Hc).
    + symmetry; apply app_nil_r.
  - now rewrite (non_space_cons c (r :: rs)), IH, <- non_space_cons.
Qed.

Lemma non_space_strip s : non_space (strip s) = non_space s.
Proof. unfold strip. now rewrite non_space_rstrip, non_space_lstrip. Qed.

Lemma concat_cons_head (A : Type) (f : str -> list A) c X :
  X <> [] -> (forall p, f (c :: p) = f [c] ++ f p) ->
  concat (map f (cons_head c X)) = f [c] ++ concat (map f X).
Proof.
  intros HX Hf. destruct X as [|p ps]; [congruence|].
  cbn [cons_head map concat]. now rewrite Hf, app_assoc.
Qed.

(** Splitting on two spaces loses spaces only. *)
Lemma non_space_split2 l :
  concat (map non_space (split (lit "  ") l)) = non_space l.
Proof.
  induction l as [|a|a b l IHl IHbl] using list_ind2.
  - reflexivity.
  - rewrite split2_one. cbn [map concat]. apply app_nil_r.
  - rewrite split2_cons2. destruct ((a =? SP) && (b =? SP)) eqn:E.
    + apply andb_prop in E as [Ea Eb].
      apply N.eqb_eq in Ea, Eb; subst a b.
      cbn [map concat app]. rewrite IHl.
      now rewrite !(non_space_cons_ws SP) by reflexivity.
    + rewrite concat_cons_head;
        [|apply split_not_nil|apply non_space_cons].
      rewrite (non_space_cons a (b :: l)). f_equal. exact IHbl.
Qed.

(** Splitting into lines loses line boundaries only. *)
Lemma non_space_splitlines s :
  concat (map non_space (splitlines s)) = non_space s.
Proof.
  induction s as [|a|a b s IHs IHbs] using list_ind2.
  - reflexivity.
  - rewrite splitlines_cons. cbn [splitlines].
    destruct (is_linebreak a) eqn:Ha; cbn [map concat app].
    + now rewrite (non_space_cons_ws a [] (linebreak_isspace a Ha)).
    + apply app_nil_r.
  - rewrite splitlines_cons. destruct (is_linebreak a) eqn:Ha.
    + rewrite (non_space_cons_ws a _ (linebreak_isspace a Ha)).
      destruct ((a =? CR) && (b =? LF)) eqn:E; cbn [map concat app].
      * apply andb_prop in E as [_ Eb]. apply N.eqb_eq in Eb; subst b.
        now rewrite IHs, (non_space_cons_ws LF s) by reflexivity.
      * exact IHbs.
    + rewrite (non_space_cons a (b :: s)), <- IHbs.
      destruct (splitlines (b :: s)) as [|l ls]; cbn [map concat app].
      * now rewrite app_nil_r.
      * now rewrite (non_space_cons a l), app_assoc.
Qed.

Lemma non_space_join parts :
  non_space (join [LF] parts) = concat (map non_space parts).
Proof.
  induction parts as [|p rest IH]; [reflexivity|].
  destruct rest as [|q rest].
  - cbn [join map concat]. now rewrite app_nil_r.
  - change (join [LF] (p :: q :: rest)) with (p ++ LF :: join [LF] (q :: rest)).
    rewrite non_space_app, (non_space_cons_ws LF) by reflexivity.
    now rewrite IH.
Qed.

Lemma non_space_nonempty parts :
  concat (map non_space (filter nonempty parts)) = concat (map non_space parts).
Proof.
  induction parts as [|p rest IH]; [reflexivity|].
  destruct p; cbn [filter nonempty map concat]; [exact IH|now rewrite IH].
Qed.

Lemma concat_map_flat_map (A B C : Type) (f : B -> list C) (g : A -> list B) l :
  concat (map f (flat_map g l)) = concat (map (fun x => concat (map f (g x))) l).
Proof.
  induction l as [|x l IH]; [reflexivity|].
  cbn [flat_map map concat]. now rewrite map_app, concat_app, IH.
Qed.

Lemma non_space_clean_up text : non_space (clean_up text) = non_space text.
Proof.
  unfold clean_up. rewrite non_space_join, non_space_nonempty.
  rewrite concat_map_flat_map, map_map.
  rewrite <- (non_space_splitlines text). f_equal.
  apply map_ext. intros l. rewrite map_map.
  rewrite (map_ext _ non_space (fun p => non_space_strip p)).
  now rewrite non_space_split2, non_space_strip.
Qed.

End CleaningFacts.

Section NormalForm.

Lemma lstrip_idem s : lstrip (lstrip s) = lstrip s.
Proof.
  induction s as [|c s IH]; [reflexivity|].
  cbn [lstrip]. destruct (isspace c) eqn:Hc; [exact IH|].
  cbn [lstrip]. now rewrite Hc.
Qed.

Lemma rstrip_cons_eq c s :
  rstrip (c :: s) =
  match rstrip s with
  | [] => if isspace c then [] else [c]
  | r => c :: r
  end.
Proof. reflexivity. Qed.

Lemma rstrip_idem s : rstrip (rstrip s) = rstrip s.
Proof.
  induction s as [|c s IH]; [reflexivity|].
  rewrite (rstrip_cons_eq c s). destruct (rstrip s) as [|r rs] eqn:E.
  - destruct (isspace c) eqn:Hc; [reflexivity|].
    rewrite rstrip_cons_eq. cbn [rstrip]. now rewrite Hc.
  - rewrite rstrip_cons_eq, IH. reflexivity.
Qed.

Lemma strip_idem s : strip (strip s) = strip s.
Proof.
  unfold strip. now rewrite lstrip_rstrip, lstrip_idem, rstrip_idem.
Qed.

Lemma double_space_cons2 a b s :
  double_space (a :: b :: s)
  = ((a =? SP) && (b =? SP)) || double_space (b :: s).
Proof. reflexivity. Qed.

Lemma double_space_tail c s :
  double_space (c :: s) = false -> double_space s = false.
Proof.
  destruct s as [|b s]; [reflexivity|].
  rewrite double_space_cons2. intros H. now apply orb_false_iff in H.
Qed.

Lemma double_space_lstrip s :
  double_space s = false -> double_space (lstrip s) = false.
Proof.
  induction s as [|c s IH]; [trivial|]. intros H.
  cbn [lstrip]. destruct (isspace c); [|exact H].
  apply IH, (double_space_tail c s H).
Qed.

Lemma rstrip_head s r rs : rstrip s = r :: rs -> exists s', s = r :: s'.
Proof.
  destruct s as [|c s]; [discriminate|].
  rewrite rstrip_cons_eq. destruct (rstrip s).
  - destruct (isspace c); [discriminate|].
    intros [= -> _]. now exists s.
  - intros [= -> _]. now exists s.
Qed.

Lemma double_space_rstrip s :
  double_space s = false -> double_space (rstrip s) = false.
Proof.
  induction s as [|c s IH]; [trivial|]. intros H.
  rewrite rstrip_cons_eq.
  pose proof (IH (double_space_tail c s H)) as IH'.
  destruct (rstrip s) as [|r rs] eqn:E.
  - destruct (isspace c); reflexivity.
  - destruct (rstrip_head s r rs E) as [s' ->].
    rewrite double_space_cons2 in *.
    apply orb_false_iff in H as [H1 _]. now rewrite H1.
Qed.

Lemma double_space_strip s :
  double_space s = false -> double_space (strip s) = false.
Proof. intros H. apply double_space_rstrip, double_space_lstrip, H. Qed.

(** No piece returned by [split] on two spaces holds two spaces. *)
Lemma split2_pieces l :
  Forall (fun p => double_space p = false) (split (lit "  ") l)
  /\ match split (lit "  ") l with
     | (d :: _) :: _ => exists l', l = d :: l'
     | _ => True
     end.
Proof.
  induction l as [|a|a b l IHl IHbl] using list_ind2.
  - rewrite split2_nil. split; [repeat constructor|trivial].
  - rewrite split2_one. split; [repeat constructor|now exists []].
  - rewrite split2_cons2. destruct ((a =? SP) && (b =? SP)) eqn:E.
    + split; [|trivial]. constructor; [reflexivity|apply IHl].
    + destruct IHbl as [Hall Hfirst].
      pose proof (split_not_nil (lit "  ") (b :: l)) as Hn.
      destruct (split (lit "  ") (b :: l)) as [|p ps]; [congruence|].
      cbn [cons_head]. split; [|now exists (b :: l)].
      inversion Hall as [|? ? Hp Hps]; subst.
      constructor; [|exact Hps].
      destruct p as [|d p]; [reflexivity|].
      destruct Hfirst as [l' [= <- _]].
      rewrite double_space_cons2, E. exact Hp.
Qed.

Lemma split2_single p :
  double_space p = false -> split (lit "  ") p = [p].
Proof.
  induction p as [|a|a b p IHp IHbp] using list_ind2; intros H.
  - reflexivity.
  - apply split2_one.
  - rewrite double_space_cons2 in H. apply orb_false_iff in H as [H1 H2].
    now rewrite split2_cons2, H1, (IHbp H2).
Qed.

Lemma double_space_app_LF p s :
  double_space (p ++ LF :: s) = double_space p || double_space s.
Proof.
  induction p as [|a|a b p IHp IHbp] using list_ind2.
  - cbn [app]. destruct s; reflexivity.
  - cbn [app]. rewrite double_space_cons2.
    change (LF =? SP) with false. rewrite andb_false_r.
    destruct s; reflexivity.
  - change ((a :: b :: p) ++ LF :: s) with (a :: (b :: p) ++ LF :: s).
    cbn [app] in *. rewrite !double_space_cons2, IHbp.
    now rewrite orb_assoc.
Qed.

Lemma double_space_join parts :
  Forall (fun p => double_space p = false) parts ->
  double_space (join [LF] parts) = false.
Proof.
  induction 1 as [|p rest Hp _ IH]; [reflexivity|].
  destruct rest as [|q rest]; [exact Hp|].
  change (join [LF] (p :: q :: rest)) with (p ++ LF :: join [LF] (q :: rest)).
  now rewrite double_space_app_LF, Hp, IH.
Qed.

Lemma contains_double_space s : contains (lit "  ") s = double_space s.
Proof.
  rewrite two_spaces.
  induction s as [|a|a b s IHs IHbs] using list_ind2.
  - reflexivity.
  - cbn [contains starts_with double_space]. now rewrite andb_false_r.
  - rewrite double_space_cons2, <- IHbs.
    cbn [contains starts_with].
    now rewrite andb_true_r, (N.eqb_sym SP a), (N.eqb_sym SP b).
Qed.

(** What the cleaning step joins, with all that it has made sure of. *)
Lemma clean_up_normal text :
  exists chunks,
    clean_up text = join [LF] chunks /\
    Forall (fun p => (no_linebreak p /\ p <> [])
                     /\ strip p = p /\ double_space p = false) chunks.
Proof.
  unfold clean_up.
  set (chunks := flat_map _ _).
  exists (filter nonempty chunks); split; [reflexivity|].
  apply Forall_forall. intros p Hin.
  apply filter_In in Hin as [Hin Hne].
  apply in_flat_map in Hin as (line & Hline & Hp).
  apply in_map_iff in Hp as (piece & <- & Hpiece).
  apply in_map_iff in Hline as (l & <- & Hl).
  repeat split.
  - apply strip_Forall.
    assert (Hs : Forall no_linebreak (split (lit "  ") (strip l))).
    { apply split_Forall, strip_Forall.
      pose proof (splitlines_no_linebreak text) as Hall.
      rewrite Forall_forall in Hall. now apply Hall. }
    rewrite Forall_forall in Hs. now apply Hs.
  - now apply nonempty_true.
  - apply strip_idem.
  - apply double_space_strip.
    destruct (split2_pieces (strip l)) as [Hall _].
    rewrite Forall_forall in Hall. now apply Hall.
Qed.

Lemma clean_up_join chunks :
  Forall (fun p => (no_linebreak p /\ p <> [])
                   /\ strip p = p /\ double_space p = false) chunks ->
  clean_up (join [LF] chunks) = join [LF] chunks.
Proof.
  intros H. unfold clean_up.
  rewrite splitlines_join
    by (apply (Forall_impl _ (P := fun p => (no_linebreak p /\ p <> [])
                   /\ strip p = p /\ double_space p = false)); tauto).
  f_equal. induction H as [|p rest (Hp & Hs & Hd) _ IH]; [reflexivity|].
  cbn [map flat_map]. rewrite Hs, (split2_single p Hd).
  cbn [map app filter]. rewrite Hs, IH.
  destruct Hp as [_ Hne]. now destruct p.
Qed.

End NormalForm.

Section CleaningProperties.

Variable WebDriver : Type.
Implicit Types (env : Env WebDriver) (driver : WebDriver).

Lemma join_Forall (P : char -> Prop) parts :
  P LF -> Forall (Forall P) parts -> Forall P (join [LF] parts).
Proof.
  intros HLF. induction 1 as [|p rest Hp _ IH]; [constructor|].
  destruct rest as [|q rest]; [exact Hp|].
  change (join [LF] (p :: q :: rest)) with (p ++ LF :: join [LF] (q :: rest)).
  apply Forall_app. split; [exact Hp|]. now constructor.
Qed.

Lemma non_space_nil_ws s : non_space s = [] <-> ws s.
Proof.
  unfold non_space, ws. induction s as [|c s IH]; [split; constructor|].
  cbn [filter]. destruct (isspace c) eqn:Hc; cbn [negb].
  - rewrite IH. split; [now constructor|now inversion 1].
  - split; [discriminate|]. inversion 1; congruence.
Qed.

Lemma has_text_non_space s : has_text s = true -> non_space s <> [].
Proof.
  intros H E. apply non_space_nil_ws in E.
  apply existsb_exists in H as (c & Hin & Hc).
  unfold ws in E. rewrite Forall_forall in E.
  rewrite (E c Hin) in Hc. discriminate.
Qed.

(** X1: cleaning a text that is already clean changes nothing. *)
Theorem clean_up_idempotent text : clean_up (clean_up text) = clean_up text.
Proof.
  destruct (clean_up_normal text) as (chunks & -> & H).
  now apply clean_up_join.
Qed.

(** X2: in the clean_text of any result no two spaces stand side by side,
    and the line feed is the only line boundary character left. *)
Theorem clean_text_white_space env url driver :
  let text := clean_text (snd (scrape_website env url driver)) in
  contains (lit "  ") text = false
  /\ Forall (fun c => is_linebreak c = true -> c = LF) text.
Proof.
  destruct (scrape_website_outcome _ env url driver);
    cbn [clean_text error_result success_result];
    try (split; [reflexivity|constructor]).
  destruct (clean_up_normal (text_content_of (document contents)))
    as (chunks & -> & Hn).
  rewrite contains_double_space. split.
  - apply double_space_join.
    apply (Forall_impl _ (P := fun p => (no_linebreak p /\ p <> [])
                     /\ strip p = p /\ double_space p = false)); tauto.
  - apply join_Forall; [reflexivity|].
    apply (Forall_impl _ (P := fun p => (no_linebreak p /\ p <> [])
                     /\ strip p = p /\ double_space p = false)); [|exact Hn].
    intros p [[Hp _] _]. unfold no_linebreak in Hp.
    apply (Forall_impl _ (P := fun c => is_linebreak c = false)); [|exact Hp].
    intros c Hc Hc'. congruence.
Qed.

(** X3: no line of the clean_text of any result begins or ends with
    white space: each line is its own trimmed form. *)
Theorem clean_text_lines_trimmed env url driver :
  Forall (fun line => strip line = line)
    (splitlines (clean_text (snd (scrape_website env url driver)))).
Proof.
  destruct (scrape_website_outcome _ env url driver);
    cbn [clean_text error_result success_result splitlines];
    try constructor.
  destruct (clean_up_normal (text_content_of (document contents)))
    as (chunks & -> & Hn).
  rewrite splitlines_join
    by (apply (Forall_impl _ (P := fun p => (no_linebreak p /\ p <> [])
                   /\ strip p = p /\ double_space p = false)); tauto).
  apply (Forall_impl _ (P := fun p => (no_linebreak p /\ p <> [])
                   /\ strip p = p /\ double_space p = false)); tauto.
Qed.

(** X4: cleaning touches white space only: the characters of clean_text
    that are not white space are those of the extracted text, in the same
    order. *)
Theorem clean_text_keeps_characters env url driver src contents :
  driver_get env driver url = Ok tt ->
  driver_page_source env driver url = Ok src ->
  BeautifulSoup env src = Ok contents ->
  non_space (clean_text (snd (scrape_website env url driver)))
  = non_space (text_content_of (document contents)).
Proof.
  intros Hget Hsrc Hparse.
  rewrite (scrape_website_success _ _ _ _ _ _ Hget Hsrc Hparse).
  cbn [clean_text success_result]. apply non_space_clean_up.
Qed.

(** X5: the cleaned text is empty exactly when the text it is made from
    holds white space only. *)
Theorem clean_up_empty_iff text :
  clean_up text = [] <-> Forall (fun c => isspace c = true) text.
Proof.
  split.
  - intros E. apply non_space_nil_ws.
    now rewrite <- non_space_clean_up, E.
  - intros H. apply non_space_nil_ws in H.
    rewrite <- non_space_clean_up in H.
    destruct (clean_up_chunks text) as (chunks & E & _ & Htext).
    rewrite E in *. destruct chunks as [|p rest]; [reflexivity|].
    inversion Htext as [|? ? Hp _]; subst.
    apply has_text_non_space in Hp.
    rewrite non_space_join in H. cbn [map concat] in H.
    apply app_eq_nil in H as [H _]. contradiction.
Qed.

(** X6: the title of any result is trimmed: it neither begins nor ends
    with white space. *)
Theorem title_is_trimmed env url driver :
  strip (title (snd (scrape_website env url driver)))
  = title (snd (scrape_website env url driver)).
Proof.
  destruct (scrape_website_outcome _ env url driver);
    cbn [title error_result success_result]; try reflexivity.
  unfold title_text_of.
  destruct (find (lit "title") (document contents));
    [apply strip_idem|reflexivity].
Qed.

End CleaningProperties.

Lemma clean_text_keeps_characters_witness :
  driver_get Demo.env 1%nat Demo.url = Ok tt
  /\ driver_page_source Demo.env 1%nat Demo.url = Ok Demo.markup
  /\ BeautifulSoup Demo.env Demo.markup = Ok Demo.contents
  /\ non_space (clean_text (snd (scrape_website Demo.env Demo.url 1%nat)))
     = non_space (text_content_of (document Demo.contents)).
Proof.
  refine (conj eq_refl (conj eq_refl (conj eq_refl _))).
  exact (clean_text_keeps_characters nat Demo.env Demo.url 1%nat
           Demo.markup Demo.contents eq_refl eq_refl eq_refl).
Defined.

(** ** The tree after the loop *)

Section LoopProperties.

Lemma descendants_remove ids e : forall y,
  In y (descendants (remove ids e)) ->
  exists x, In x (descendants e) /\ removed ids x = false /\ y = remove ids x.
Proof.
  induction e as [cls s|i n cs IH] using PageElement_induction;
    intros y Hy; [destruct Hy|].
  cbn [remove descendants] in Hy.
  apply in_flat_map in Hy as (c' & Hc' & Hy).
  apply in_flat_map in Hc' as (c & Hc & Hc').
  destruct (removed ids c) eqn:Hr; [destruct Hc'|].
  destruct Hc' as [<-|[]].
  destruct Hy as [<-|Hy].
  - exists c. split; [now apply In_contents|now split].
  - rewrite Forall_forall in IH.
    destruct (IH c Hc y Hy) as (x & Hx & Hrx & ->).
    exists x. split; [now apply (In_below x c)|now split].
Qed.

Lemma is_tag_named_remove names ids x :
  is_tag_named names (remove ids x) = is_tag_named names x.
Proof. destruct x; reflexivity. Qed.

(** X7: the text is read from the tree the loop leaves, and in that tree
    a search for script and style tags finds nothing. *)
Theorem no_script_or_style_after_loop soup :
  text_content_of soup
  = get_text (after_decompose [lit "script"; lit "style"] soup)
  /\ find_all [lit "script"; lit "style"]
       (after_decompose [lit "script"; lit "style"] soup) = [].
Proof.
  split; [reflexivity|].
  unfold after_decompose. rewrite decompose_loop.
  apply filter_none. intros y Hy.
  apply descendants_remove in Hy as (x & Hx & Hr & ->).
  rewrite is_tag_named_remove.
  destruct (is_tag_named [lit "script"; lit "style"] x) eqn:Hn; [|reflexivity].
  destruct x as [cls s|i n cs]; [discriminate Hn|].
  cbn [removed] in Hr. apply not_true_iff_false in Hr. destruct Hr.
  apply existsb_exists. exists i. split; [|apply Nat.eqb_refl].
  apply in_flat_map. exists (Tag i n cs).
  split; [apply filter_In; split; assumption|now left].
Qed.

End LoopProperties.

(** ** The handler and the process *)

Section HandlerProperties.

Variable WebDriver : Type.
Implicit Types (env : Env WebDriver) (driver : WebDriver) (p : Process WebDriver).

Lemma scrape_website_trace env url driver :
  fst (scrape_website env url driver)
  = st_info (lit "Loading " ++ url ++ lit "...") :: call_get url
    :: match driver_get env driver url with
       | Ok _ => [call_sleep 2; call_page_source]
       | Raise _ => []
       end.
Proof.
  unfold scrape_website, scrape_body.
  cbv beta iota delta [bind call emit lift ret].
  destruct (driver_get env driver url) as [[]|e]; [|reflexivity].
  destruct (driver_page_source env driver url) as [src|e]; [|reflexivity].
  destruct (BeautifulSoup env src); reflexivity.
Qed.

Lemma on_click_eq env url_input p :
  on_click env url_input p =
  if nonempty url_input then
    match get_driver env p with
    | (t1, Some driver, p') =>
        (t1 ++ fst (scrape_website env url_input driver)
            ++ report (snd (scrape_website env url_input driver)) url_input
            ++ [call_quit], p')
    | (t1, None, p') =>
        (t1 ++ [st_error (lit "Failed to initialize web driver. Please try again.")],
         p')
    end
  else ([st_warning (lit "Please enter a valid URL.")], p).
Proof.
  unfold on_click, report. destruct (nonempty url_input); [|reflexivity].
  destruct (get_driver env p) as [[t1 [driver|]] p']; [|reflexivity].
  destruct (scrape_website env url_input driver) as [t2 result]. reflexivity.
Qed.

Lemma clicks_cons env url_input runs p :
  clicks ((env, url_input) :: runs) p
  = (fst (on_click env url_input p)
       :: fst (clicks runs (snd (on_click env url_input p))),
     snd (clicks runs (snd (on_click env url_input p)))).
Proof.
  cbn [clicks]. destruct (on_click env url_input p) as [t p'].
  cbn [fst snd]. destruct (clicks runs p') as [ts p'']. reflexivity.
Qed.

Lemma count_app f (a b : list event) :
  count f (a ++ b) = (count f a + count f b)%nat.
Proof. unfold count. now rewrite filter_app, length_app. Qed.

Lemma count_scrape_Chrome env url driver :
  count is_call_Chrome (fst (scrape_website env url driver)) = 0%nat.
Proof.
  rewrite scrape_website_trace.
  destruct (driver_get env driver url); reflexivity.
Qed.

Lemma count_scrape_quit env url driver :
  count is_call_quit (fst (scrape_website env url driver)) = 0%nat.
Proof.
  rewrite scrape_website_trace.
  destruct (driver_get env driver url); reflexivity.
Qed.

Lemma count_report f result url_input :
  (forall e, f e = true -> is_element e = false) ->
  count f (report result url_input) = 0%nat.
Proof.
  intros Hf. unfold count. rewrite (filter_none _ f); [reflexivity|].
  intros e He. destruct (f e) eqn:Hfe; [|reflexivity].
  apply Hf in Hfe. revert He. unfold report, tab1, tab2, tab3.
  destruct (PyStr.eqb (status result) (lit "success"));
    destruct (nonempty (clean_text result)); cbn [In app];
    intros He; repeat destruct He as [<-|He]; try discriminate; destruct He.
Qed.

Lemma count_elements f (els : list event) :
  (forall e, f e = true -> is_element e = false) ->
  forallb is_element els = true -> count f els = 0%nat.
Proof.
  intros Hf Hels. unfold count. rewrite (filter_none _ f); [reflexivity|].
  intros e He. destruct (f e) eqn:Hfe; [|reflexivity].
  apply Hf in Hfe. rewrite forallb_forall in Hels.
  rewrite (Hels e He) in Hfe. discriminate.
Qed.

Lemma Chrome_not_element e : is_call_Chrome e = true -> is_element e = false.
Proof. destruct e; simpl; congruence. Qed.

Lemma quit_not_element e : is_call_quit e = true -> is_element e = false.
Proof. destruct e; simpl; congruence. Qed.

Lemma forallb_filter (A : Type) (f : A -> bool) l :
  forallb f (filter f l) = true.
Proof.
  apply forallb_forall. intros x Hx. now apply filter_In in Hx.
Qed.

Lemma get_driver_filled env p v elements :
  get_driver_cache p = Some (v, elements) ->
  get_driver env p = (elements, v, p).
Proof. unfold get_driver. now intros ->. Qed.

Lemma get_driver_cache_ok env p :
  cache_ok p -> cache_ok (snd (get_driver env p)).
Proof.
  unfold cache_ok, get_driver.
  destruct (get_driver_cache p) as [[v els]|] eqn:E.
  - cbn [snd]. now rewrite E.
  - intros _. destruct (get_driver_body env) as [t v].
    cbn [snd get_driver_cache]. apply forallb_filter.
Qed.

Lemma on_click_cache_ok env url_input p :
  cache_ok p -> cache_ok (snd (on_click env url_input p)).
Proof.
  intros Hp. rewrite on_click_eq. destruct (nonempty url_input); [|exact Hp].
  pose proof (get_driver_cache_ok env p Hp) as H.
  destruct (get_driver env p) as [[t1 [driver|]] p']; exact H.
Qed.

(** Every state a process can reach holds a well-made cache. *)
Lemma clicks_cache_ok runs : forall p,
  cache_ok p -> cache_ok (snd (clicks runs p)).
Proof.
  induction runs as [|[env url_input] runs IH]; intros p Hp; [exact Hp|].
  rewrite clicks_cons. cbn [snd]. apply IH, on_click_cache_ok, Hp.
Qed.

Lemma on_click_filled env url_input p v elements :
  get_driver_cache p = Some (v, elements) ->
  snd (on_click env url_input p) = p.
Proof.
  intros E. rewrite on_click_eq, (get_driver_filled env p v elements E).
  destruct (nonempty url_input); [|reflexivity].
  destruct v; reflexivity.
Qed.

(** Once the cache of get_driver holds an entry, no series of clicks
    replaces it. *)
Lemma cache_entry_is_kept runs : forall p entry,
  get_driver_cache p = Some entry ->
  snd (clicks runs p) = p.
Proof.
  induction runs as [|[env url_input] runs IH]; intros p [v els] E;
    [reflexivity|].
  rewrite clicks_cons. cbn [snd].
  rewrite (on_click_filled env url_input p v els E).
  exact (IH p (v, els) E).
Qed.

Lemma filled_no_Chrome runs : forall p entry,
  get_driver_cache p = Some entry -> cache_ok p ->
  count is_call_Chrome (concat (fst (clicks runs p))) = 0%nat.
Proof.
  induction runs as [|[env url_input] runs IH]; intros p [v els] E Hok;
    [reflexivity|].
  rewrite clicks_cons. cbn [fst concat].
  rewrite count_app, (on_click_filled env url_input p v els E).
  rewrite (IH p (v, els) E Hok), Nat.add_0_r.
  rewrite on_click_eq, (get_driver_filled env p v els E).
  assert (Hels : count is_call_Chrome els = 0%nat).
  { apply count_elements; [apply Chrome_not_element|].
    unfold cache_ok in Hok. now rewrite E in Hok. }
  destruct (nonempty url_input); [|reflexivity].
  destruct v as [driver|]; cbn [fst]; rewrite !count_app, Hels.
  - rewrite count_scrape_Chrome, (count_report _ _ _ Chrome_not_element).
    reflexivity.
  - reflexivity.
Qed.

(** X9: over any series of clicks in a fresh process Chrome is started
    at most once. *)
Theorem Chrome_started_at_most_once (runs : list (Env WebDriver * str)) :
  (count is_call_Chrome (concat (fst (clicks runs fresh))) <= 1)%nat.
Proof.
  induction runs as [|[env url_input] runs IH]; [cbn; lia|].
  rewrite clicks_cons. cbn [fst concat]. rewrite count_app.
  rewrite on_click_eq.
  destruct (nonempty url_input); [|exact IH].
  unfold get_driver at 1 2. cbn [get_driver_cache fresh].
  unfold get_driver_body.
  destruct (Chrome env chrome_arguments) as [driver|e]; cbn [fst snd].
  - match goal with
    | |- context [clicks runs ?q] =>
        rewrite (filled_no_Chrome runs q _ eq_refl
                   (forallb_filter _ is_element _))
    end.
    rewrite !count_app, count_scrape_Chrome,
      (count_report _ _ _ Chrome_not_element).
    cbn. lia.
  - match goal with
    | |- context [clicks runs ?q] =>
        rewrite (filled_no_Chrome runs q _ eq_refl
                   (forallb_filter _ is_element _))
    end.
    cbn. lia.
Qed.

Lemma get_driver_no_quit env p :
  cache_ok p -> count is_call_quit (fst (fst (get_driver env p))) = 0%nat.
Proof.
  unfold cache_ok, get_driver.
  destruct (get_driver_cache p) as [[v els]|].
  - intros Hok. cbn [fst]. now apply count_elements; [apply quit_not_element|].
  - intros _. unfold get_driver_body.
    destruct (Chrome env chrome_arguments); reflexivity.
Qed.

(** X10: when the handler has a session in hand it quits it, once and
    as its last act, whether the scrape succeeded or not; with no session
    it quits nothing. *)
Theorem on_click_quits_session env url_input p t1 session p' :
  cache_ok p -> nonempty url_input = true ->
  get_driver env p = (t1, session, p') ->
  match session with
  | Some _ =>
      exists t, fst (on_click env url_input p) = t ++ [call_quit]
                /\ count is_call_quit t = 0%nat
  | None => count is_call_quit (fst (on_click env url_input p)) = 0%nat
  end.
Proof.
  intros Hok Hne E.
  pose proof (get_driver_no_quit env p Hok) as Hq.
  rewrite on_click_eq, Hne, E. rewrite E in Hq. cbn [fst] in *.
  destruct session as [driver|]; cbn [fst].
  - exists (t1 ++ fst (scrape_website env url_input driver)
              ++ report (snd (scrape_website env url_input driver)) url_input).
    split; [now rewrite <- !app_assoc|].
    rewrite !count_app, Hq, count_scrape_quit.
    now rewrite (count_report _ _ _ quit_not_element).
  - now rewrite count_app, Hq.
Qed.

Lemma scrape_website_failure env url driver e :
  driver_get env driver url = Raise e
  \/ (driver_get env driver url = Ok tt
      /\ driver_page_source env driver url = Raise e)
  \/ (exists src,
        driver_get env driver url = Ok tt
        /\ driver_page_source env driver url = Ok src
        /\ BeautifulSoup env src = Raise e) ->
  snd (scrape_website env url driver) = error_result e.
Proof.
  intros H. unfold scrape_website, scrape_body.
  cbv beta iota delta [bind call emit lift ret].
  destruct H as [Hget|[[Hget Hsrc]|(src & Hget & Hsrc & Hparse)]].
  - now rewrite Hget.
  - now rewrite Hget, Hsrc.
  - now rewrite Hget, Hsrc, Hparse.
Qed.

Lemma report_error e url_input :
  report (error_result e) url_input
  = [st_error (lit "Scraping failed: error: " ++ e)].
Proof.
  unfold report. cbn [status error_result].
  destruct (PyStr.eqb (lit "error: " ++ e) (lit "success")) eqn:E.
  - apply eqb_eq in E. now destruct (error_is_not_success e).
  - reflexivity.
Qed.

(** X11: when navigation, the read of the markup or the parser raises,
    the handler writes one error banner that carries the exception
    message, writes no result tab, and still quits the session. *)
Theorem failed_scrape_is_reported env url_input p t1 driver p' e :
  nonempty url_input = true ->
  get_driver env p = (t1, Some driver, p') ->
  driver_get env driver url_input = Raise e
  \/ (driver_get env driver url_input = Ok tt
      /\ driver_page_source env driver url_input = Raise e)
  \/ (exists src,
        driver_get env driver url_input = Ok tt
        /\ driver_page_source env driver url_input = Ok src
        /\ BeautifulSoup env src = Raise e) ->
  on_click env url_input p
  = (t1 ++ fst (scrape_website env url_input driver)
        ++ [st_error (lit "Scraping failed: error: " ++ e); call_quit],
     p')
  /\ count is_result_element
       (fst (scrape_website env url_input driver)
        ++ [st_error (lit "Scraping failed: error: " ++ e); call_quit])
     = 0%nat.
Proof.
  intros Hne E H.
  rewrite on_click_eq, Hne, E, (scrape_website_failure _ _ _ _ H).
  rewrite report_error. split; [reflexivity|].
  rewrite count_app, scrape_website_trace.
  destruct (driver_get env driver url_input); reflexivity.
Qed.

Lemma display_bound (limit : N) (s : str) :
  len (slice_to limit s ++ (if limit <? len s then lit "..." else []))
  <= limit + 3.
Proof.
  unfold len, slice_to. rewrite length_app.
  pose proof (firstn_le_length (N.to_nat limit) s) as H.
  destruct (limit <? N.of_nat (length s)); cbn [length lit]; simpl length; lia.
Qed.

(** X12: whatever the page, the text area never holds more than 5003
    characters and the code block never more than 3003. *)
Theorem panels_are_bounded (result : ScrapeResult) :
  Forall (fun e => match e with
                   | st_text_area _ value => len value <= 5003
                   | st_code body => len body <= 3003
                   | _ => True
                   end)
    (tab1 result ++ tab2 result).
Proof.
  unfold tab1, tab2.
  destruct (nonempty (clean_text result)); cbn [app];
    repeat constructor;
    first [exact (display_bound 5000 _) | exact (display_bound 3000 _)].
Qed.

Lemma on_click_starts_Chrome env url_input driver :
  nonempty url_input = true ->
  Chrome env chrome_arguments = Ok driver ->
  on_click env url_input fresh
  = ([call_Chrome chrome_arguments]
       ++ fst (scrape_website env url_input driver)
       ++ report (snd (scrape_website env url_input driver)) url_input
       ++ [call_quit],
     {| get_driver_cache := Some (Some driver, []) |}).
Proof.
  intros Hne Hstart. rewrite on_click_eq, Hne.
  unfold get_driver, get_driver_body. cbn [get_driver_cache fresh].
  rewrite Hstart. reflexivity.
Qed.

(** X13: after a click that started Chrome and quit the session at its
    end, the next click starts nothing: it hands the very session that
    was quit to scrape_website. *)
Theorem quit_session_is_reused env1 url1 env2 url2 driver :
  nonempty url1 = true -> nonempty url2 = true ->
  Chrome env1 chrome_arguments = Ok driver ->
  (exists t, fst (on_click env1 url1 fresh) = t ++ [call_quit])
  /\ fst (on_click env2 url2 (snd (on_click env1 url1 fresh)))
     = fst (scrape_website env2 url2 driver)
       ++ report (snd (scrape_website env2 url2 driver)) url2
       ++ [call_quit].
Proof.
  intros Hne1 Hne2 Hstart.
  rewrite (on_click_starts_Chrome env1 url1 driver Hne1 Hstart).
  cbn [fst snd]. split.
  - eexists. rewrite !app_assoc. reflexivity.
  - rewrite on_click_eq, Hne2.
    rewrite (get_driver_filled env2
               {| get_driver_cache := Some (Some driver, []) |}
               (Some driver) [] eq_refl).
    reflexivity.
Qed.

End HandlerProperties.

(** ** Instances of the further properties *)

Lemma on_click_quits_session_witness :
  cache_ok (@fresh nat)
  /\ nonempty Demo.url = true
  /\ get_driver Demo.env fresh
     = ([call_Chrome chrome_arguments], Some 1%nat,
        {| get_driver_cache := Some (Some 1%nat, []) |})
  /\ exists t, fst (on_click Demo.env Demo.url fresh) = t ++ [call_quit]
               /\ count is_call_quit t = 0%nat.
Proof.
  refine (conj I (conj eq_refl (conj eq_refl _))).
  exact (on_click_quits_session nat Demo.env Demo.url fresh
           [call_Chrome chrome_arguments] (Some 1%nat)
           {| get_driver_cache := Some (Some 1%nat, []) |}
           I eq_refl eq_refl).
Defined.

Lemma failed_scrape_is_reported_witness :
  nonempty Demo.url = true
  /\ get_driver Demo.env_unreachable fresh
     = ([call_Chrome chrome_arguments], Some 1%nat,
        {| get_driver_cache := Some (Some 1%nat, []) |})
  /\ driver_get Demo.env_unreachable 1%nat Demo.url
     = Raise (lit "net::ERR_NAME_NOT_RESOLVED")
  /\ on_click Demo.env_unreachable Demo.url fresh
     = ([call_Chrome chrome_arguments]
          ++ fst (scrape_website Demo.env_unreachable Demo.url 1%nat)
          ++ [st_error (lit "Scraping failed: error: "
                        ++ lit "net::ERR_NAME_NOT_RESOLVED");
              call_quit],
        {| get_driver_cache := Some (Some 1%nat, []) |}).
Proof.
  refine (conj eq_refl (conj eq_refl (conj eq_refl _))).
  exact (proj1 (failed_scrape_is_reported nat Demo.env_unreachable Demo.url
                  fresh [call_Chrome chrome_arguments] 1%nat
                  {| get_driver_cache := Some (Some 1%nat, []) |}
                  (lit "net::ERR_NAME_NOT_RESOLVED")
                  eq_refl eq_refl (or_introl eq_refl))).
Defined.

Lemma quit_session_is_reused_witness :
  nonempty Demo.url = true
  /\ Chrome Demo.env chrome_arguments = Ok 1%nat
  /\ (exists t, fst (on_click Demo.env Demo.url fresh) = t ++ [call_quit])
  /\ fst (on_click Demo.env_unreachable Demo.url
            (snd (on_click Demo.env Demo.url fresh)))
     = fst (scrape_website Demo.env_unreachable Demo.url 1%nat)
       ++ report (snd (scrape_website Demo.env_unreachable Demo.url 1%nat))
            Demo.url
       ++ [call_quit].
Proof.
  refine (conj eq_refl (conj eq_refl _)).
  exact (quit_session_is_reused nat Demo.env Demo.url Demo.env_unreachable
           Demo.url 1%nat eq_refl eq_refl eq_refl).
Defined.

(** ** Lengths and calls *)

Section LengthProperties.

Variable WebDriver : Type.
Implicit Types (env : Env WebDriver) (driver : WebDriver).

Lemma weight_cons p ps : weight (p :: ps) = (S (length p) + weight ps)%nat.
Proof. reflexivity. Qed.

Lemma weight_app a b : weight (a ++ b) = (weight a + weight b)%nat.
Proof. unfold weight. now rewrite map_app, list_sum_app. Qed.

Lemma weight_cons_head c X :
  X <> [] -> weight (cons_head c X) = S (weight X).
Proof. destruct X as [|p ps]; [congruence|reflexivity]. Qed.

Lemma length_lstrip s : (length (lstrip s) <= length s)%nat.
Proof.
  induction s as [|c s IH]; [reflexivity|].
  cbn [lstrip]. destruct (isspace c); cbn [length]; lia.
Qed.

Lemma length_rstrip s : (length (rstrip s) <= length s)%nat.
Proof.
  induction s as [|c s IH]; [reflexivity|].
  cbn [rstrip]. destruct (rstrip s); [destruct (isspace c)|];
    cbn [length] in *; lia.
Qed.

Lemma length_strip s : (length (strip s) <= length s)%nat.
Proof.
  unfold strip. pose proof (length_rstrip (lstrip s)).
  pose proof (length_lstrip s). lia.
Qed.

Lemma weight_kept pieces : (weight (kept pieces) <= weight pieces)%nat.
Proof.
  unfold kept. induction pieces as [|p ps IH]; [reflexivity|].
  cbn [map filter]. pose proof (length_strip p) as Hp.
  destruct (nonempty (strip p)); rewrite !weight_cons; lia.
Qed.

Lemma weight_split2 l : (weight (split (lit "  ") l) <= S (length l))%nat.
Proof.
  induction l as [|a|a b l IHl IHbl] using list_ind2.
  - cbn. lia.
  - rewrite split2_one. cbn. lia.
  - rewrite split2_cons2. destruct ((a =? SP) && (b =? SP)).
    + change (weight ([] :: split (lit "  ") l))
        with (S (weight (split (lit "  ") l))).
      cbn [length]. lia.
    + rewrite weight_cons_head by apply split_not_nil.
      cbn [length] in *. lia.
Qed.

Lemma weight_splitlines s : (weight (splitlines s) <= S (length s))%nat.
Proof.
  induction s as [|a|a b s IHs IHbs] using list_ind2.
  - cbn. lia.
  - rewrite splitlines_cons. cbn [splitlines].
    destruct (is_linebreak a); cbn; lia.
  - rewrite splitlines_cons. destruct (is_linebreak a).
    + destruct ((a =? CR) && (b =? LF)).
      * change (weight ([] :: splitlines s)) with (S (weight (splitlines s))).
        cbn [length]. lia.
      * change (weight ([] :: splitlines (b :: s)))
          with (S (weight (splitlines (b :: s)))).
        cbn [length] in *. lia.
    + destruct (splitlines (b :: s)) as [|l ls].
      * cbn. lia.
      * change (weight ((a :: l) :: ls)) with (S (weight (l :: ls))).
        cbn [length] in *. lia.
Qed.

Lemma length_join parts :
  parts <> [] -> S (length (join [LF] parts)) = weight parts.
Proof.
  induction parts as [|p rest IH]; [congruence|intros _].
  destruct rest as [|q rest].
  - cbn. lia.
  - change (join [LF] (p :: q :: rest)) with (p ++ LF :: join [LF] (q :: rest)).
    change (weight (p :: q :: rest)) with (S (length p) + weight (q :: rest))%nat.
    rewrite length_app. cbn [length]. rewrite <- IH by discriminate. lia.
Qed.

Lemma weight_chunks lines :
  (weight (filter nonempty
             (flat_map (fun line => map strip (split (lit "  ") line))
                (map strip lines)))
   <= weight lines)%nat.
Proof.
  induction lines as [|l lines IH]; [reflexivity|].
  cbn [map flat_map]. rewrite filter_app, weight_app.
  change (weight (l :: lines)) with (S (length l) + weight lines)%nat.
  pose proof (weight_kept (split (lit "  ") (strip l))) as H1.
  pose proof (weight_split2 (strip l)) as H2.
  pose proof (length_strip l) as H3.
  unfold kept in H1. lia.
Qed.

(** X14: cleaning never makes a text longer. *)
Theorem clean_up_not_longer text : len (clean_up text) <= len text.
Proof.
  unfold clean_up, len.
  pose proof (weight_chunks (splitlines text)) as H1.
  pose proof (weight_splitlines text) as H2.
  destruct (filter nonempty _) as [|p rest] eqn:E.
  - cbn. lia.
  - pose proof (length_join (p :: rest)) as H3.
    rewrite <- H3 in H1 by discriminate. lia.
Qed.

(** A run of scrape_website navigates once, to the URL it was given, and
    neither starts Chrome nor quits the session. *)
Lemma scrape_website_calls env url driver :
  filter is_call_get (fst (scrape_website env url driver)) = [call_get url]
  /\ count is_call_Chrome (fst (scrape_website env url driver)) = 0%nat
  /\ count is_call_quit (fst (scrape_website env url driver)) = 0%nat.
Proof.
  rewrite scrape_website_trace.
  destruct (driver_get env driver url); repeat split.
Qed.

End LengthProperties.
